(** * transcribe.py: the transcription pipeline and its two runners

    A shallow embedding of [transcribe.py]: the orchestrator
    [transcribe_video], the command-line runner ([run_cli], [main]) and the
    queue coordination of the graphical runner ([post_status], [worker],
    [process_queue]).

    Python values are modelled as follows.
    - A [str] is the list of its Unicode code points.
    - The file system is a finite map from paths to the contents of the
      regular files; [open(.., "w")] and [os.remove] succeed on it, and
      [handle.write] fails on a text that UTF-8 cannot encode.
    - Exceptions are values of [exn], all of them instances of Python's
      [Exception]; a computation is a state-and-error monad over [World].
    - The external libraries (ffmpeg, whisper, tempfile) are the fields of a
      record [Collab]: arbitrary functions on the file system that return or
      raise.
    - A status hook is a function on the state it writes to (standard output,
      the message queue); the three hooks of the program return normally.
    - [os.path] is [posixpath]. *)

From Stdlib Require Import String Ascii NArith List Lia.
From stdpp Require Import base option list gmap.

Local Open Scope N_scope.

(** ** Strings *)

Definition char := N.
Definition str := list char.

(** Decoder of the UTF-8 bytes of a source literal into code points. *)
Fixpoint utf8_decode (bs : list N) (need : nat) (acc : N) : str :=
  match bs with
  | [] => []
  | b :: bs' =>
      match need with
      | O =>
          if b <? 128 then b :: utf8_decode bs' 0%nat 0
          else if b <? 224 then utf8_decode bs' 1%nat (b - 192)
          else if b <? 240 then utf8_decode bs' 2%nat (b - 224)
          else utf8_decode bs' 3%nat (b - 240)
      | S O => (acc * 64 + (b - 128)) :: utf8_decode bs' 0%nat 0
      | S n => utf8_decode bs' n (acc * 64 + (b - 128))
      end
  end.

Definition utf8 (s : string) : str :=
  utf8_decode (map (fun a => N_of_ascii a) (list_ascii_of_string s)) 0%nat 0.

Definition c_slash : char := 47.
Definition c_dot : char := 46.
Definition c_dquote : char := 34.
Definition c_squote : char := 39.
Definition c_newline : char := 10.

(** [str.isspace] on one code point: the white space that [str.strip()]
    removes. *)
Definition isspace (c : char) : bool :=
  ((9 <=? c) && (c <=? 13)) || ((28 <=? c) && (c <=? 32))
  || (c =? 133) || (c =? 160) || (c =? 5760)
  || ((8192 <=? c) && (c <=? 8202))
  || (c =? 8232) || (c =? 8233) || (c =? 8239) || (c =? 8287) || (c =? 12288).

Fixpoint lstrip_by (f : char -> bool) (s : str) : str :=
  match s with
  | c :: s' => if f c then lstrip_by f s' else s
  | [] => []
  end.

Definition rstrip_by (f : char -> bool) (s : str) : str :=
  rev (lstrip_by f (rev s)).

(** [s.strip()] and [s.strip(chars)]: the left end is cut first, then the
    right end of what remains. *)
Definition strip_by (f : char -> bool) (s : str) : str :=
  rstrip_by f (lstrip_by f s).

Definition strip (s : str) : str := strip_by isspace s.
Definition strip_char (c : char) (s : str) : str := strip_by (N.eqb c) s.

(** [str.lower()], on the letters A-Z. No code point outside ASCII lowercases
    to a string of ASCII letters other than "k", so membership of a lowered
    extension in [SUPPORTED_EXTS] is decided by these letters. *)
Definition lower_char (c : char) : char :=
  if (65 <=? c) && (c <=? 90) then c + 32 else c.
Definition lower (s : str) : str := map lower_char s.

(** [sep.join(parts)] *)
Fixpoint join (sep : str) (parts : list str) : str :=
  match parts with
  | [] => []
  | [p] => p
  | p :: rest => p ++ sep ++ join sep rest
  end.

Definition str_eqb (a b : str) : bool := bool_decide (a = b).

(** [x in xs] for a collection of strings. *)
Definition str_in (x : str) (xs : list str) : bool := existsb (str_eqb x) xs.

(** Python's order on strings (code point by code point) and [sorted]. *)
Fixpoint str_leb (a b : str) : bool :=
  match a, b with
  | [], _ => true
  | _ :: _, [] => false
  | x :: a', y :: b' => if x <? y then true else if y <? x then false else str_leb a' b'
  end.

Fixpoint insert_sorted (x : str) (xs : list str) : list str :=
  match xs with
  | [] => [x]
  | y :: ys => if str_leb x y then x :: xs else y :: insert_sorted x ys
  end.

Definition sorted (xs : list str) : list str := foldr insert_sorted [] xs.

(** ** posixpath *)

Definition not_slash (c : char) : bool := negb (c =? c_slash).
Definition not_dot (c : char) : bool := negb (c =? c_dot).

Fixpoint take_while (f : char -> bool) (s : str) : str :=
  match s with
  | c :: s' => if f c then c :: take_while f s' else []
  | [] => []
  end.

(** [p[i:]] for [i = p.rfind('/') + 1]. *)
Definition basename (p : str) : str := rev (take_while not_slash (rev p)).

(** [p[:i]] for [i = p.rfind('/') + 1]. *)
Definition path_head (p : str) : str := rev (lstrip_by not_slash (rev p)).

Definition all_slashes (s : str) : bool := forallb (N.eqb c_slash) s.

Definition dirname (p : str) : str :=
  let head := path_head p in
  if negb (bool_decide (head = [])) && negb (all_slashes head)
  then rstrip_by (N.eqb c_slash) head
  else head.

(** [os.path.splitext]: the extension starts at the last dot of the last
    component, unless only dots precede it there. *)
Definition splitext (p : str) : str * str :=
  let name := basename p in
  let ext_tail := rev (take_while not_dot (rev name)) in
  let before := rev (lstrip_by not_dot (rev name)) in
  match rev before with
  | [] => (p, [])
  | _dot :: rstem =>
      if existsb not_dot rstem
      then (path_head p ++ rev rstem, c_dot :: ext_tail)
      else (p, [])
  end.

(** [os.path.join(a, b)] *)
Definition startswith_slash (b : str) : bool :=
  match b with c :: _ => c =? c_slash | [] => false end.
Definition endswith_slash (a : str) : bool :=
  match rev a with c :: _ => c =? c_slash | [] => false end.

Definition path_join (a b : str) : str :=
  if startswith_slash b then b
  else if bool_decide (a = []) || endswith_slash a then a ++ b
  else a ++ c_slash :: b.

(** ** Exceptions, results and the world *)

Inductive exn_class :=
  | ValueError
  | FileNotFoundError
  | RuntimeError
  | FfmpegError                 (* ffmpeg.Error *)
  | OtherError (name : str).    (* any other subclass of Exception *)

(** An exception instance; [exn_msg] is [str(exc)]. *)
Record exn := Exn { exn_kind : exn_class; exn_msg : str }.

Inductive res (A : Type) :=
  | Ok (a : A)
  | Raise (e : exn).
Arguments Ok {A} a.
Arguments Raise {A} e.

(** The calls the orchestrator makes, in the order it makes them. This log is
    ghost state: the program never reads it. *)
Inductive event :=
  | EvStatus (message : str)               (* status_cb(message) *)
  | EvTempFile (path : str)                (* tempfile.NamedTemporaryFile *)
  | EvExtract (video audio : str)          (* ffmpeg ... .run() *)
  | EvLoadModel (name : str)               (* whisper.load_model *)
  | EvTranscribe (audio : str)             (* model.transcribe *)
  | EvWrite (path text : str)              (* open(path, "w") ... write(text) *)
  | EvRemove (path : str)                  (* os.remove *)
  | EvLaunchGui.                           (* launch_gui() *)

Record World (H : Type) := mkWorld {
  w_fs : gmap str str;       (* regular files: path -> content *)
  w_env : gmap str str;      (* os.environ *)
  w_trace : list event;      (* ghost log *)
  w_hook : H                 (* what the status hook writes to *)
}.
Arguments mkWorld {H} _ _ _ _.
Arguments w_fs {H} _.
Arguments w_env {H} _.
Arguments w_trace {H} _.
Arguments w_hook {H} _.

Definition set_fs {H : Type} (f : gmap str str) (w : World H) : World H :=
  mkWorld f (w_env w) (w_trace w) (w_hook w).
Definition log {H : Type} (e : event) (w : World H) : World H :=
  mkWorld (w_fs w) (w_env w) (w_trace w ++ [e]) (w_hook w).
Definition set_hook {H : Type} (h : H) (w : World H) : World H :=
  mkWorld (w_fs w) (w_env w) (w_trace w) h.

(** ** The monad of Python statements: state and exceptions *)

Definition M (H A : Type) : Type := World H -> World H * res A.

Definition ret {H A : Type} (a : A) : M H A := fun w => (w, Ok a).
Definition raise {H A : Type} (e : exn) : M H A := fun w => (w, Raise e).
Definition bind {H A B : Type} (c : M H A) (k : A -> M H B) : M H B :=
  fun w => match c w with
           | (w', Ok a) => k a w'
           | (w', Raise e) => (w', Raise e)
           end.

Notation "'let!' x ':=' c 'in' k" := (bind c (fun x => k))
  (at level 10, x name, c at level 100, k at level 200).
Notation "'run!' c 'in' k" := (bind c (fun _ => k))
  (at level 10, c at level 100, k at level 200).

(** [try: body  except <class accepted by sel> as exc: handler(exc)] *)
Definition try_except {H A : Type} (sel : exn -> bool) (body : M H A)
    (handler : exn -> M H A) : M H A :=
  fun w => match body w with
           | (w', Raise e) => if sel e then handler e w' else (w', Raise e)
           | r => r
           end.

(** [try: body  finally: fin]: [fin] runs on every exit of [body]; an
    exception of [fin] replaces the outcome of [body]. *)
Definition try_finally {H A : Type} (body : M H A) (fin : M H unit) : M H A :=
  fun w => match body w with
           | (w', r) => match fin w' with
                        | (w'', Ok _) => (w'', r)
                        | (w'', Raise e) => (w'', Raise e)
                        end
           end.

(** ** Collaborators *)

(** Keyword arguments of [.output(...)], [.overwrite_output()] and
    [.run(quiet=True)]. *)
Record ffmpeg_opts := {
  fo_format : str; fo_acodec : str; fo_ac : N; fo_ar : str;
  fo_overwrite : bool; fo_quiet : bool
}.

(** Keyword arguments of [model.transcribe]. *)
Record transcribe_opts := { to_verbose : bool; to_fp16 : bool }.

(** What [model.transcribe] returns: a dictionary whose keys "text" and
    "segments" may be absent; a segment carries its "text". *)
Record Segment := { seg_text : str }.
Record RecResult := {
  r_text : option str;
  r_segments : option (list Segment)
}.

(** The external libraries. Each may change the file system, and returns or
    raises. [tmp_stem] is the directory, prefix and random part of the name
    that [tempfile] picks. *)
Record Collab (Model : Type) := {
  ffmpeg_run : str -> str -> ffmpeg_opts -> gmap str str -> gmap str str * res unit;
  whisper_load_model : str -> gmap str str -> gmap str str * res Model;
  model_transcribe :
    Model -> str -> transcribe_opts -> gmap str str -> gmap str str * res RecResult;
  tmp_stem : gmap str str -> str
}.
Arguments ffmpeg_run {Model} _.
Arguments whisper_load_model {Model} _.
Arguments model_transcribe {Model} _.
Arguments tmp_stem {Model} _.

(** ** The orchestrator *)

Definition SUPPORTED_EXTS : list str :=
  Eval vm_compute in [utf8 ".mp4"; utf8 ".mov"; utf8 ".avi"].

Definition MSG_NO_PATH : str := Eval vm_compute in utf8 "Путь к файлу не указан.".
Definition MSG_NOT_FOUND : str := Eval vm_compute in utf8 "Файл не найден: ".
Definition MSG_FORMATS : str := Eval vm_compute in utf8 "Поддерживаемые форматы: ".
Definition MSG_EXTRACTING : str := Eval vm_compute in utf8 "Извлечение аудио...".
Definition MSG_RECOGNIZING : str := Eval vm_compute in utf8 "Распознавание...".
Definition MSG_DONE : str := Eval vm_compute in utf8 "Готово!".
Definition MSG_SAVED : str := Eval vm_compute in utf8 "Сохранено в ".
Definition MSG_FFMPEG : str := Eval vm_compute in utf8 "Ошибка ffmpeg: ".
Definition TXT_SUFFIX : str := Eval vm_compute in utf8 ".txt".
Definition WAV_SUFFIX : str := Eval vm_compute in utf8 ".wav".
Definition WHISPER_MODEL : str := Eval vm_compute in utf8 "WHISPER_MODEL".
Definition DEFAULT_MODEL : str := Eval vm_compute in utf8 "base".
Definition CUR_DIR : str := Eval vm_compute in utf8 ".".
Definition COMMA_SPACE : str := Eval vm_compute in utf8 ", ".

Definition normalize_path (path : str) : str :=
  strip_char c_squote (strip_char c_dquote (strip path)).

(** [a or b] on strings: the empty string is false. *)
Definition str_or (a b : str) : str :=
  match a with [] => b | _ :: _ => a end.

(** [model_name or os.environ.get("WHISPER_MODEL", "base")]: [None] and the
    empty string are false. *)
Definition resolve_model (model_name : option str) (environ : gmap str str) : str :=
  match model_name with
  | Some (c :: s) => c :: s
  | _ => default DEFAULT_MODEL (environ !! WHISPER_MODEL)
  end.

(** Lines 66-68: the transcript text of a recognition result. *)
Definition extract_text (result : RecResult) : str :=
  let text := strip (default [] (r_text result)) in
  match text, r_segments result with
  | [], Some (s :: segs) =>
      strip (join [c_newline] (map (fun s => strip (seg_text s)) (s :: segs)))
  | _, _ => text
  end.

(** Lines 49-51: the path of the transcript. *)
Definition txt_path_of (video_path : str) : str :=
  let output_dir := str_or (dirname video_path) CUR_DIR in
  let base_name := fst (splitext (basename video_path)) in
  path_join output_dir (base_name ++ TXT_SUFFIX).

Definition is_ffmpeg_error (e : exn) : bool :=
  match exn_kind e with FfmpegError => true | _ => false end.

(** [os.path.isfile] and, the files being regular, [os.path.exists]; [stat]
    of the empty path fails. *)
Definition is_file (fs : gmap str str) (p : str) : bool :=
  negb (bool_decide (p = [])) && bool_decide (is_Some (fs !! p)).

(** A code point that the UTF-8 codec refuses: a surrogate. *)
Definition is_surrogate (c : char) : bool := (55296 <=? c) && (c <=? 57343).
Definition not_surrogate (c : char) : bool := negb (is_surrogate c).

(** The texts that [handle.write] can encode. *)
Definition encodable (text : str) : bool := forallb not_surrogate text.

Fixpoint decimal_digits (fuel : nat) (n : N) (acc : str) : str :=
  match fuel with
  | O => acc
  | S fuel' =>
      let acc' := (48 + n mod 10) :: acc in
      if n / 10 =? 0 then acc' else decimal_digits fuel' (n / 10) acc'
  end.

(** [str(n)] *)
Definition decimal (n : N) : str := decimal_digits (S (N.to_nat (N.log2 n))) n [].

Definition hex_digit (d : N) : char := if d <? 10 then 48 + d else 87 + d.

(** ['%04x' % c] *)
Definition hex4 (c : N) : str :=
  [hex_digit (c / 4096 mod 16); hex_digit (c / 256 mod 16);
   hex_digit (c / 16 mod 16); hex_digit (c mod 16)].

(** The UnicodeEncodeError of the UTF-8 codec on [text]: it reports the first
    run of surrogates, by its one character or by its first and last
    positions. *)
Definition encode_error (text : str) : exn :=
  let start := N.of_nat (length (take_while not_surrogate text)) in
  let bad := take_while is_surrogate (lstrip_by not_surrogate text) in
  Exn (OtherError (utf8 "UnicodeEncodeError"))
    match bad with
    | [c] =>
        utf8 "'utf-8' codec can't encode character '\u" ++ hex4 c
        ++ utf8 "' in position " ++ decimal start ++ utf8 ": surrogates not allowed"
    | _ =>
        utf8 "'utf-8' codec can't encode characters in position " ++ decimal start
        ++ utf8 "-" ++ decimal (start + N.of_nat (length bad) - 1)
        ++ utf8 ": surrogates not allowed"
    end.

Definition FFMPEG_OPTS : ffmpeg_opts :=
  {| fo_format := utf8 "wav"; fo_acodec := utf8 "pcm_s16le"; fo_ac := 1;
     fo_ar := utf8 "16000"; fo_overwrite := true; fo_quiet := true |}.

Definition TRANSCRIBE_OPTS : transcribe_opts :=
  {| to_verbose := false; to_fp16 := false |}.

Section Orchestrator.
Context {H Model : Type}.
Variable lib : Collab Model.

Definition os_path_isfile (p : str) : M H bool :=
  fun w => (w, Ok (is_file (w_fs w) p)).

Definition os_path_exists (p : str) : M H bool :=
  fun w => (w, Ok (is_file (w_fs w) p)).

Definition os_remove (p : str) : M H unit :=
  fun w => (log (EvRemove p) (set_fs (delete p (w_fs w)) w), Ok tt).

(** [tempfile.NamedTemporaryFile(suffix=.., delete=False)], [.name],
    [.close()]: an empty file is left at the chosen name. *)
Definition NamedTemporaryFile (suffix : str) : M H str :=
  fun w =>
    let name := tmp_stem lib (w_fs w) ++ suffix in
    (log (EvTempFile name) (set_fs (<[name := []]> (w_fs w)) w), Ok name).

(** [with open(path, "w", encoding="utf-8") as handle: handle.write(text)]:
    [open] creates the file or empties it; [write] then encodes the whole
    text, or raises and leaves the file empty. *)
Definition write_text (path text : str) : M H unit :=
  fun w =>
    let opened := log (EvWrite path text) (set_fs (<[path := []]> (w_fs w)) w) in
    if encodable text
    then (set_fs (<[path := text]> (w_fs opened)) opened, Ok tt)
    else (opened, Raise (encode_error text)).

Definition os_environ : M H (gmap str str) := fun w => (w, Ok (w_env w)).

(** A call of the status hook. *)
Definition call_status (status_cb : str -> H -> H) (message : str) : M H unit :=
  fun w => (log (EvStatus message) (set_hook (status_cb message (w_hook w)) w), Ok tt).

Definition lift_lib {A : Type} (ev : event)
    (f : gmap str str -> gmap str str * res A) : M H A :=
  fun w => let '(fs', r) := f (w_fs w) in (set_fs fs' (log ev w), r).

Definition extract_audio (video_path audio_path : str) : M H unit :=
  lift_lib (EvExtract video_path audio_path)
    (ffmpeg_run lib video_path audio_path FFMPEG_OPTS).

Definition load_model (model_name : str) : M H Model :=
  lift_lib (EvLoadModel model_name) (whisper_load_model lib model_name).

Definition transcribe_audio (model : Model) (audio_path : str) : M H RecResult :=
  lift_lib (EvTranscribe audio_path)
    (model_transcribe lib model audio_path TRANSCRIBE_OPTS).

(** Lines 58-75: the body of the [try]. *)
Definition pipeline (status_cb : str -> H -> H) (video_path audio_path txt_path : str)
    (model_name : option str) : M H str :=
  run! call_status status_cb MSG_EXTRACTING in
  run! extract_audio video_path audio_path in
  run! call_status status_cb MSG_RECOGNIZING in
  let! environ := os_environ in
  let model_name := resolve_model model_name environ in
  let! model := load_model model_name in
  let! result := transcribe_audio model audio_path in
  let text := extract_text result in
  run! write_text txt_path text in
  run! call_status status_cb MSG_DONE in
  run! call_status status_cb (MSG_SAVED ++ txt_path) in
  ret txt_path.

(** Lines 78-80: the [finally] clause. *)
Definition cleanup (audio_path : str) : M H unit :=
  let! there := os_path_exists audio_path in
  if there then os_remove audio_path else ret tt.

Definition transcribe_video (video_path : str) (model_name : option str)
    (status_cb : option (str -> H -> H)) : M H str :=
  let status_cb := default (fun _ h => h) status_cb in
  if bool_decide (video_path = []) then raise (Exn ValueError MSG_NO_PATH) else
  let video_path := normalize_path video_path in
  let! isfile := os_path_isfile video_path in
  if negb isfile then raise (Exn FileNotFoundError (MSG_NOT_FOUND ++ video_path)) else
  let ext := lower (snd (splitext video_path)) in
  if negb (str_in ext SUPPORTED_EXTS)
  then raise (Exn ValueError (MSG_FORMATS ++ join COMMA_SPACE (sorted SUPPORTED_EXTS)))
  else
  let txt_path := txt_path_of video_path in
  let! audio_path := NamedTemporaryFile WAV_SUFFIX in
  try_finally
    (try_except is_ffmpeg_error
       (pipeline status_cb video_path audio_path txt_path model_name)
       (fun exc => raise (Exn RuntimeError (MSG_FFMPEG ++ exn_msg exc))))
    (cleanup audio_path).

End Orchestrator.

(** ** The synchronous runner *)

Definition MSG_RESULT : str := Eval vm_compute in utf8 "Файл результата: ".
Definition USAGE_1 : str :=
  Eval vm_compute in utf8 "Использование: python transcribe.py <путь_к_видео>".
Definition USAGE_2 : str := Eval vm_compute in utf8 "Для GUI используйте ключ --gui".
Definition GUI_FLAG : str := Eval vm_compute in utf8 "--gui".

(** How a function of the command line ends: it returns, or [sys.exit(code)]
    unwinds the process. *)
Inductive ended :=
  | Returned
  | SysExit (code : N).

(** The exit code of the process whose [main()] ended so. *)
Definition exit_status (e : ended) : N :=
  match e with Returned => 0 | SysExit code => code end.

(** [tqdm.write] and [print]: one line on standard output. *)
Definition printer (message : str) (stdout : list str) : list str :=
  stdout ++ [message].

Definition print_line (message : str) (w : World (list str)) : World (list str) :=
  set_hook (printer message (w_hook w)) w.

(** [sys.argv[1:]] as the code splits it. *)
Definition use_gui_of (raw_args : list str) : bool :=
  str_in GUI_FLAG raw_args || bool_decide (raw_args = []).
Definition args_of (raw_args : list str) : list str :=
  List.filter (fun arg => negb (str_eqb arg GUI_FLAG)) raw_args.

Section Cli.
Context {Model : Type}.
Variable lib : Collab Model.

Definition run_cli (video_path : str) (w : World (list str))
    : World (list str) * ended :=
  match (let! txt_path := transcribe_video lib video_path None (Some printer) in
         fun w' => (print_line (MSG_RESULT ++ txt_path) w', Ok tt)) w with
  | (w', Ok _) => (w', Returned)
  | (w', Raise exc) => (print_line (exn_msg exc) w', SysExit 1)
  end.

(** Lines 207-216 of [main], on the two values computed before them.
    [launch_gui()] is the window's main loop; here it is one logged call. *)
Definition main_body (use_gui : bool) (args : list str) (w : World (list str))
    : World (list str) * ended :=
  if use_gui then (log EvLaunchGui w, Returned)
  else match args with
       | [] => (print_line USAGE_2 (print_line USAGE_1 w), SysExit 1)
       | arg0 :: _ => run_cli arg0 w
       end.

Definition main (raw_args : list str) (w : World (list str))
    : World (list str) * ended :=
  let use_gui := use_gui_of raw_args in
  let args := args_of raw_args in
  main_body use_gui args w.

End Cli.

(** ** The asynchronous runner: worker, queue and poll *)

(** A queue entry [(kind, payload)]. *)
Definition tuple : Type := str * str.

Definition K_STATUS : str := Eval vm_compute in utf8 "status".
Definition K_DONE : str := Eval vm_compute in utf8 "done".
Definition K_ERROR : str := Eval vm_compute in utf8 "error".

(** [msg_queue.put(t)] on the unbounded FIFO queue. *)
Definition queue_put (t : tuple) (q : list tuple) : list tuple := q ++ [t].

Definition post_status (message : str) (q : list tuple) : list tuple :=
  queue_put (K_STATUS, message) q.

Section Worker.
Context {Model : Type}.
Variable lib : Collab Model.

Definition worker (video_path model_name : str) : M (list tuple) unit :=
  try_except (fun _ => true)
    (let! txt_path :=
       transcribe_video lib video_path (Some model_name) (Some post_status) in
     fun w => (set_hook (queue_put (K_DONE, txt_path) (w_hook w)) w, Ok tt))
    (fun exc w => (set_hook (queue_put (K_ERROR, exn_msg exc) (w_hook w)) w, Ok tt)).

(** The puts of one run of the worker, in the order it makes them: what the
    run has added to the queue it found. *)
Definition worker_puts (video_path model_name : str) (w : World (list tuple))
    : list tuple :=
  drop (length (w_hook w)) (w_hook (fst (worker video_path model_name w))).

End Worker.

Inductive dialog :=
  | ShowInfo (title message : str)
  | ShowError (title message : str).

(** What the poll loop changes: the status label, the progress bar, the two
    buttons, the modal dialogs shown, and the timers armed by [root.after]. *)
Record Ui := mkUi {
  status_var : str;
  progress_running : bool;
  start_btn_normal : bool;
  browse_btn_normal : bool;
  dialogs : list dialog;
  timers : nat
}.

Definition UI_DONE_PREFIX : str := Eval vm_compute in utf8 "Готово! См. ".
Definition UI_DONE_TITLE : str := Eval vm_compute in utf8 "Готово".
Definition UI_SAVED : str := Eval vm_compute in utf8 "Транскрипт сохранен:".
Definition UI_ERROR : str := Eval vm_compute in utf8 "Ошибка.".
Definition UI_ERROR_TITLE : str := Eval vm_compute in utf8 "Ошибка".

(** The body of the [while True] loop of [process_queue] after
    [get_nowait()] returned [(kind, payload)]. *)
Definition handle (t : tuple) (ui : Ui) : Ui :=
  let '(kind, payload) := t in
  if str_eqb kind K_STATUS then
    mkUi payload (progress_running ui) (start_btn_normal ui) (browse_btn_normal ui)
      (dialogs ui) (timers ui)
  else if str_eqb kind K_DONE then
    mkUi (UI_DONE_PREFIX ++ payload) false true true
      (dialogs ui ++ [ShowInfo UI_DONE_TITLE (UI_SAVED ++ c_newline :: payload)])
      (timers ui)
  else if str_eqb kind K_ERROR then
    mkUi UI_ERROR false true true
      (dialogs ui ++ [ShowError UI_ERROR_TITLE payload]) (timers ui)
  else ui.

(** [process_queue] when the worker puts nothing meanwhile: the loop takes
    every queued tuple in FIFO order until [queue.Empty], then [finally]
    re-arms the timer. *)
Fixpoint drain (q : list tuple) (ui : Ui) : Ui :=
  match q with
  | [] => ui
  | t :: q' => drain q' (handle t ui)
  end.

Definition process_queue (st : list tuple * Ui) : list tuple * Ui :=
  let ui := drain (fst st) (snd st) in
  ([], mkUi (status_var ui) (progress_running ui) (start_btn_normal ui)
         (browse_btn_normal ui) (dialogs ui) (S (timers ui))).

(** The two threads of one run, interleaved at the queue operations:
    [s_todo] are the puts the worker has still to make, [s_queue] the queue,
    [s_seen] (ghost) the tuples the UI thread has taken so far. *)
Record Sys := mkSys {
  s_todo : list tuple;
  s_queue : list tuple;
  s_ui : Ui;
  s_seen : list tuple
}.

Inductive sys_step : Sys -> Sys -> Prop :=
  | step_put t todo q ui seen :          (* worker: msg_queue.put(t) *)
      sys_step (mkSys (t :: todo) q ui seen) (mkSys todo (queue_put t q) ui seen)
  | step_get t todo q ui seen :          (* UI thread: get_nowait() and dispatch *)
      sys_step (mkSys todo (t :: q) ui seen) (mkSys todo q (handle t ui) (seen ++ [t])).

Inductive sys_steps : Sys -> Sys -> Prop :=
  | steps_refl s : sys_steps s s
  | steps_snoc s1 s2 s3 : sys_steps s1 s2 -> sys_step s2 s3 -> sys_steps s1 s3.

Definition is_terminal (t : tuple) : Prop := fst t = K_DONE ∨ fst t = K_ERROR.

(** ** Vocabulary of the statements *)

(** The three validation tests of lines 36-47, on the path as given. *)
Definition valid_input (fs : gmap str str) (path : str) : bool :=
  negb (bool_decide (path = []))
  && is_file fs (normalize_path path)
  && str_in (lower (snd (splitext (normalize_path path)))) SUPPORTED_EXTS.

(** What the [except] clause makes of an exception of the [try] body. *)
Definition surfaced (e : exn) : exn :=
  if is_ffmpeg_error e then Exn RuntimeError (MSG_FFMPEG ++ exn_msg e) else e.

(** The log entry of the [finally] clause. *)
Definition removal (fs : gmap str str) (audio_path : str) : list event :=
  if is_file fs audio_path then [EvRemove audio_path] else [].

(** The messages the status hook was called with, oldest first. *)
Definition statuses (t : list event) : list str :=
  omap (fun e => match e with EvStatus m => Some m | _ => None end) t.

(** The temporary files created, oldest first. *)
Definition temp_files (t : list event) : list str :=
  omap (fun e => match e with EvTempFile a => Some a | _ => None end) t.

(** [stops f s]: [s] is empty or begins with a character that [f] rejects. *)
Definition stops (f : char -> bool) (s : str) : Prop :=
  match s with [] => True | c :: _ => f c = false end.

(** A directory prefix: empty, or ending in a slash. *)
Definition dir_prefix (x : str) : Prop := stops not_slash (rev x).

(** What [dirname] returns, and "." in its place: a string of slashes, or a
    path that does not end in a slash. *)
Definition dir_normal (d : str) : Prop :=
  d ≠ [] ∧ (all_slashes d = true ∨ endswith_slash d = false).

(** The models loaded, oldest first. *)
Definition loaded_models (t : list event) : list str :=
  omap (fun e => match e with EvLoadModel name => Some name | _ => None end) t.

(** The calls to the collaborators, oldest first. *)
Definition lib_calls (t : list event) : list event :=
  List.filter (fun e => match e with
                        | EvExtract _ _ | EvLoadModel _ | EvTranscribe _ => true
                        | _ => false
                        end) t.

(** The text extraction in the words of the specification: the combined
    text, trimmed; if that is empty and a segment list is present, the
    segment texts in order, each trimmed, joined by newline, trimmed again. *)
Definition spec_text (result : RecResult) : str :=
  let combined := strip (default [] (r_text result)) in
  if bool_decide (combined = []) then
    match r_segments result with
    | Some segs => strip (join [c_newline] (map (fun s => strip (seg_text s)) segs))
    | None => combined
    end
  else combined.

Section Stages.
Context {H Model : Type}.
Variable lib : Collab Model.
Implicit Types (w : World H) (cb : option (str -> H -> H)) (mn : option str).

Definition hook_of cb : str -> H -> H := default (fun _ h => h) cb.
Definition audio_of w : str := tmp_stem lib (w_fs w) ++ WAV_SUFFIX.
Definition fs_tmp w : gmap str str := <[audio_of w := []]> (w_fs w).

(** The stages a valid run goes through: hook states and logs. *)
Definition hook1 cb w : H := hook_of cb MSG_EXTRACTING (w_hook w).
Definition hook2 cb w : H := hook_of cb MSG_RECOGNIZING (hook1 cb w).
Definition hook4 cb w (txt : str) : H :=
  hook_of cb (MSG_SAVED ++ txt) (hook_of cb MSG_DONE (hook2 cb w)).
Definition evs1 w (v : str) : list event :=
  [EvTempFile (audio_of w); EvStatus MSG_EXTRACTING; EvExtract v (audio_of w)].
Definition evs2 w (v name : str) : list event :=
  evs1 w v ++ [EvStatus MSG_RECOGNIZING; EvLoadModel name].
Definition evs3 w (v name : str) : list event :=
  evs2 w v name ++ [EvTranscribe (audio_of w)].
Definition evs4 w (v name txt text : str) : list event :=
  evs3 w v name ++ [EvWrite txt text; EvStatus MSG_DONE; EvStatus (MSG_SAVED ++ txt)].

(** The world a valid run ends in: the file system [fs'] it reached, less
    the temporary file, and the calls [evs] it made. *)
Definition end_world w (fs' : gmap str str) (evs : list event) (h : H) : World H :=
  mkWorld (delete (audio_of w) fs') (w_env w)
  (w_trace w ++ evs ++ removal fs' (audio_of w)) h.

(** Every run ends in one of eight ways. *)
Inductive outcome (p : str) mn cb w : World H → res str → Prop :=
  | out_empty :
      p = [] → outcome p mn cb w w (Raise (Exn ValueError MSG_NO_PATH))
  | out_missing :
      p ≠ [] → is_file (w_fs w) (normalize_path p) = false →
      outcome p mn cb w w
        (Raise (Exn FileNotFoundError (MSG_NOT_FOUND ++ normalize_path p)))
  | out_unsupported :
      p ≠ [] → is_file (w_fs w) (normalize_path p) = true →
      str_in (lower (snd (splitext (normalize_path p)))) SUPPORTED_EXTS = false →
      outcome p mn cb w w
        (Raise (Exn ValueError (MSG_FORMATS ++ join COMMA_SPACE (sorted SUPPORTED_EXTS))))
  | out_extract_fail fs1 e :
      valid_input (w_fs w) p = true →
      ffmpeg_run lib (normalize_path p) (audio_of w) FFMPEG_OPTS (fs_tmp w)
        = (fs1, Raise e) →
      outcome p mn cb w
        (end_world w fs1 (evs1 w (normalize_path p)) (hook1 cb w))
        (Raise (surfaced e))
  | out_load_fail fs1 u fs2 e :
      valid_input (w_fs w) p = true →
      ffmpeg_run lib (normalize_path p) (audio_of w) FFMPEG_OPTS (fs_tmp w)
        = (fs1, Ok u) →
      whisper_load_model lib (resolve_model mn (w_env w)) fs1 = (fs2, Raise e) →
      outcome p mn cb w
        (end_world w fs2 (evs2 w (normalize_path p) (resolve_model mn (w_env w)))
           (hook2 cb w))
        (Raise (surfaced e))
  | out_transcribe_fail fs1 u fs2 model fs3 e :
      valid_input (w_fs w) p = true →
      ffmpeg_run lib (normalize_path p) (audio_of w) FFMPEG_OPTS (fs_tmp w)
        = (fs1, Ok u) →
      whisper_load_model lib (resolve_model mn (w_env w)) fs1 = (fs2, Ok model) →
      model_transcribe lib model (audio_of w) TRANSCRIBE_OPTS fs2 = (fs3, Raise e) →
      outcome p mn cb w
        (end_world w fs3 (evs3 w (normalize_path p) (resolve_model mn (w_env w)))
           (hook2 cb w))
        (Raise (surfaced e))
  | out_write_fail fs1 u fs2 model fs3 result :
      valid_input (w_fs w) p = true →
      ffmpeg_run lib (normalize_path p) (audio_of w) FFMPEG_OPTS (fs_tmp w)
        = (fs1, Ok u) →
      whisper_load_model lib (resolve_model mn (w_env w)) fs1 = (fs2, Ok model) →
      model_transcribe lib model (audio_of w) TRANSCRIBE_OPTS fs2 = (fs3, Ok result) →
      encodable (extract_text result) = false →
      outcome p mn cb w
        (end_world w (<[txt_path_of (normalize_path p) := []]> fs3)
           (evs3 w (normalize_path p) (resolve_model mn (w_env w))
            ++ [EvWrite (txt_path_of (normalize_path p)) (extract_text result)])
           (hook2 cb w))
        (Raise (encode_error (extract_text result)))
  | out_success fs1 u fs2 model fs3 result :
      valid_input (w_fs w) p = true →
      ffmpeg_run lib (normalize_path p) (audio_of w) FFMPEG_OPTS (fs_tmp w)
        = (fs1, Ok u) →
      whisper_load_model lib (resolve_model mn (w_env w)) fs1 = (fs2, Ok model) →
      model_transcribe lib model (audio_of w) TRANSCRIBE_OPTS fs2 = (fs3, Ok result) →
      encodable (extract_text result) = true →
      outcome p mn cb w
        (end_world w (<[txt_path_of (normalize_path p) := extract_text result]> fs3)
           (evs4 w (normalize_path p) (resolve_model mn (w_env w))
              (txt_path_of (normalize_path p)) (extract_text result))
           (hook4 cb w (txt_path_of (normalize_path p))))
        (Ok (txt_path_of (normalize_path p))).

End Stages.

(** ** Collaborators and worlds of the examples *)

Definition VIDEO : str := Eval vm_compute in utf8 "/videos/movie.mp4".
Definition VIDEO_TXT : str := Eval vm_compute in utf8 "/videos/movie.txt".
Definition CLIP : str := Eval vm_compute in utf8 "clip.avi".
Definition NOTES : str := Eval vm_compute in utf8 "notes.pdf".
Definition TMP_STEM : str := Eval vm_compute in utf8 "/tmp/tmpq3x8k2vd".

(** ffmpeg writes a waveform; the model loads and recognizes [result]. *)
Definition lib_ok (result : RecResult) : Collab unit := {|
  ffmpeg_run := fun video audio opts fs => (<[audio := utf8 "RIFF"]> fs, Ok tt);
  whisper_load_model := fun name fs => (fs, Ok tt);
  model_transcribe := fun model audio opts fs => (fs, Ok result);
  tmp_stem := fun fs => TMP_STEM
|}.

(** ffmpeg fails with [e]. *)
Definition lib_ffmpeg_fails (e : exn) : Collab unit := {|
  ffmpeg_run := fun video audio opts fs => (fs, Raise e);
  whisper_load_model := fun name fs => (fs, Ok tt);
  model_transcribe := fun model audio opts fs => (fs, Ok {| r_text := None; r_segments := None |});
  tmp_stem := fun fs => TMP_STEM
|}.

(** The model fails with [e] while recognizing. *)
Definition lib_model_fails (e : exn) : Collab unit := {|
  ffmpeg_run := fun video audio opts fs => (<[audio := utf8 "RIFF"]> fs, Ok tt);
  whisper_load_model := fun name fs => (fs, Ok tt);
  model_transcribe := fun model audio opts fs => (fs, Raise e);
  tmp_stem := fun fs => TMP_STEM
|}.

(** The model is its own name, and recognizes its name. *)
Definition lib_echo : Collab str := {|
  ffmpeg_run := fun video audio opts fs => (<[audio := utf8 "RIFF"]> fs, Ok tt);
  whisper_load_model := fun name fs => (fs, Ok name);
  model_transcribe := fun model audio opts fs =>
    (fs, Ok {| r_text := Some model; r_segments := None |});
  tmp_stem := fun fs => TMP_STEM
|}.

Definition FFMPEG_ERR : exn :=
  Eval vm_compute in Exn FfmpegError (utf8 "ffmpeg error (see stderr output for detail)").
Definition MODEL_ERR : exn :=
  Eval vm_compute in Exn RuntimeError (utf8 "CUDA out of memory").

(** A world whose disk holds the listed files, with an empty log. *)
Definition world_with {H : Type} (files : list (str * str)) (h : H) : World H :=
  mkWorld (list_to_map files) ∅ [] h.

Definition HELLO : RecResult :=
  {| r_text := Some (utf8 "  hello world  "); r_segments := None |}.
Definition SEGMENTS_ONLY : RecResult :=
  {| r_text := Some [];
     r_segments := Some [ {| seg_text := utf8 "a " |}; {| seg_text := utf8 " b" |} ] |}.
(** A text with a lone surrogate at position 2. *)
Definition UNPAIRED : RecResult :=
  {| r_text := Some [104; 105; 55296]; r_segments := None |}.
Definition SILENCE : RecResult := {| r_text := Some (utf8 "  "); r_segments := Some [] |}.

(** ** The rest of the graphical runner *)

Definition UI_CHOOSE : str := Eval vm_compute in utf8 "Выберите видеофайл.".
Definition UI_READY : str := Eval vm_compute in utf8 "Готово к запуску.".
Definition UI_STARTING : str := Eval vm_compute in utf8 "Запуск...".
Definition UI_NO_FILE : str := Eval vm_compute in utf8 "Файл не выбран".

(** The Tk variables of the two entry fields, and the widgets. *)
Record Gui := mkGui {
  path_var : str;
  model_var : str;
  gui_ui : Ui
}.

Definition set_status (s : str) (ui : Ui) : Ui :=
  mkUi s (progress_running ui) (start_btn_normal ui) (browse_btn_normal ui)
    (dialogs ui) (timers ui).

(** Lines 104-107 and 198 of [launch_gui]: the variables as created, idle
    widgets, and the first [root.after(100, process_queue)]. *)
Definition initial_gui (environ : gmap str str) : Gui :=
  mkGui [] (default DEFAULT_MODEL (environ !! WHISPER_MODEL))
    (mkUi UI_CHOOSE false true true [] 1).

(** [choose_file], given what [filedialog.askopenfilename] returned (the
    empty string when the dialog is cancelled). *)
Definition choose_file (file_path : str) (g : Gui) : Gui :=
  match file_path with
  | [] => g
  | _ :: _ => mkGui file_path (model_var g) (set_status UI_READY (gui_ui g))
  end.

(** What a click on the start button sets off: a warning box, or one worker
    thread with its two arguments. *)
Inductive start_effect :=
  | Warned (title message : str)
  | Launched (video_path model_name : str).

Definition start_transcription (g : Gui) : Gui * start_effect :=
  let video_path := strip (path_var g) in
  if bool_decide (video_path = []) then (g, Warned UI_NO_FILE UI_CHOOSE)
  else
    (mkGui (path_var g) (model_var g)
       (mkUi UI_STARTING true false false (dialogs (gui_ui g)) (timers (gui_ui g))),
     Launched video_path (model_var g)).

(** ** Further vocabulary *)

(** The transcripts written, oldest first. *)
Definition writes (t : list event) : list (str * str) :=
  omap (fun e => match e with EvWrite path text => Some (path, text) | _ => None end) t.

(** A character that [normalize_path] may cut at either end of a path. *)
Definition trimmed_char (c : char) : bool :=
  isspace c || (c =? c_dquote) || (c =? c_squote).

(** A path with nothing to cut: not empty, and neither its first nor its last
    character is white space or a quote. *)
Definition clean_path (p : str) : bool :=
  match p, rev p with
  | c :: _, d :: _ => negb (trimmed_char c) && negb (trimmed_char d)
  | _, _ => false
  end.

(** Collaborators that write nowhere but at the path [a]. *)
Definition writes_only_at {Model : Type} (lib : Collab Model) (a : str) : Prop :=
  (∀ video opts fs fs' r, ffmpeg_run lib video a opts fs = (fs', r) →
     ∀ q, q ≠ a → fs' !! q = fs !! q)
  ∧ (∀ name fs fs' r, whisper_load_model lib name fs = (fs', r) →
     ∀ q, q ≠ a → fs' !! q = fs !! q)
  ∧ (∀ model opts fs fs' r, model_transcribe lib model a opts fs = (fs', r) →
     ∀ q, q ≠ a → fs' !! q = fs !! q).

(** The modal dialog that ends a run. *)
Definition final_dialog (r : res str) : dialog :=
  match r with
  | Ok path => ShowInfo UI_DONE_TITLE (UI_SAVED ++ c_newline :: path)
  | Raise e => ShowError UI_ERROR_TITLE (exn_msg e)
  end.

(** The status label after a run. *)
Definition final_status (r : res str) : str :=
  match r with
  | Ok path => UI_DONE_PREFIX ++ path
  | Raise e => UI_ERROR
  end.

(** * Properties *)

(** ** posixpath and string examples *)

Example splitext_ex1 :
  splitext (utf8 "/videos/movie.mp4") = (utf8 "/videos/movie", utf8 ".mp4").
Proof. vm_compute. reflexivity. Qed.
Example splitext_ex2 : splitext (utf8 "/a/.bashrc") = (utf8 "/a/.bashrc", []).
Proof. vm_compute. reflexivity. Qed.
Example splitext_ex3 : splitext (utf8 "a.b/c") = (utf8 "a.b/c", []).
Proof. vm_compute. reflexivity. Qed.
Example splitext_ex4 : splitext (utf8 "x/..a.b.c") = (utf8 "x/..a.b", utf8 ".c").
Proof. vm_compute. reflexivity. Qed.
Example splitext_ex5 : splitext (utf8 "...") = (utf8 "...", []).
Proof. vm_compute. reflexivity. Qed.
Example dirname_ex1 : dirname (utf8 "/videos//movie.mp4") = utf8 "/videos".
Proof. vm_compute. reflexivity. Qed.
Example dirname_ex2 : dirname (utf8 "//movie.mp4") = utf8 "//".
Proof. vm_compute. reflexivity. Qed.
Example dirname_ex3 : dirname (utf8 "movie.mp4") = [].
Proof. vm_compute. reflexivity. Qed.
Example utf8_ex : utf8 "Готово!" = [1043; 1086; 1090; 1086; 1074; 1086; 33].
Proof. vm_compute. reflexivity. Qed.


(** ** Lemmas on strings and paths *)

Lemma take_while_lstrip f s : take_while f s ++ lstrip_by f s = s.
Proof. induction s as [|c s IH]; cbn; [done|]. destruct (f c); cbn; by rewrite ?IH. Qed.

Lemma take_while_all f s : forallb f (take_while f s) = true.
Proof. induction s as [|c s IH]; cbn; [done|]. destruct (f c) eqn:E; cbn; by rewrite ?E. Qed.

Lemma lstrip_by_stops f s : stops f (lstrip_by f s).
Proof. induction s as [|c s IH]; cbn; [done|]. destruct (f c) eqn:E; cbn; done. Qed.

Lemma lstrip_by_id f s : stops f s → lstrip_by f s = s.
Proof. destruct s as [|c s]; cbn; [done|]. by intros ->. Qed.

Lemma take_while_app f s1 s2 :
  forallb f s1 = true → stops f s2 → take_while f (s1 ++ s2) = s1.
Proof.
  induction s1 as [|c s1 IH]; cbn.
  - intros _. destruct s2 as [|c s2]; cbn; [done|]. by intros ->.
  - intros [-> ?]%andb_true_iff ?. by rewrite IH.
Qed.

Lemma lstrip_by_app f s1 s2 :
  forallb f s1 = true → stops f s2 → lstrip_by f (s1 ++ s2) = s2.
Proof.
  induction s1 as [|c s1 IH]; cbn.
  - intros _. apply lstrip_by_id.
  - intros [-> ?]%andb_true_iff ?. by rewrite IH.
Qed.

Lemma forallb_rev (f : char -> bool) s : forallb f (rev s) = forallb f s.
Proof.
  induction s as [|c s IH]; cbn; [done|].
  rewrite forallb_app, IH. cbn. rewrite andb_true_r. apply andb_comm.
Qed.

Lemma path_split p : path_head p ++ basename p = p.
Proof.
  unfold path_head, basename. rewrite <- rev_app_distr, take_while_lstrip.
  apply rev_involutive.
Qed.

Lemma basename_no_slash p : forallb not_slash (basename p) = true.
Proof. unfold basename. rewrite forallb_rev. apply take_while_all. Qed.

Lemma basename_app x f :
  dir_prefix x → forallb not_slash f = true → basename (x ++ f) = f.
Proof.
  intros Hx Hf. unfold basename. rewrite rev_app_distr, take_while_app.
  - apply rev_involutive.
  - by rewrite forallb_rev.
  - done.
Qed.

Lemma path_head_app x f :
  dir_prefix x → forallb not_slash f = true → path_head (x ++ f) = x.
Proof.
  intros Hx Hf. unfold path_head. rewrite rev_app_distr, lstrip_by_app.
  - apply rev_involutive.
  - by rewrite forallb_rev.
  - done.
Qed.

Lemma basename_of_name f : forallb not_slash f = true → basename f = f.
Proof. intros Hf. by apply (basename_app [] f). Qed.

Lemma path_head_of_name f : forallb not_slash f = true → path_head f = [].
Proof. intros Hf. by apply (path_head_app [] f). Qed.

Lemma basename_idem p : basename (basename p) = basename p.
Proof. apply basename_of_name, basename_no_slash. Qed.

Lemma splitext_join p : fst (splitext p) ++ snd (splitext p) = p.
Proof.
  unfold splitext.
  destruct (rev (rev (lstrip_by not_dot (rev (basename p))))) as [|d rstem] eqn:E;
    cbn [fst snd]; [apply app_nil_r|].
  destruct (existsb not_dot rstem); cbn [fst snd]; [|apply app_nil_r].
  rewrite rev_involutive in E.
  pose proof (lstrip_by_stops not_dot (rev (basename p))) as Hd.
  rewrite E in Hd. cbn in Hd. apply negb_false_iff, N.eqb_eq in Hd. subst d.
  pose proof (take_while_lstrip not_dot (rev (basename p))) as HR.
  rewrite E in HR. apply (f_equal (@rev _)) in HR.
  rewrite rev_involutive, rev_app_distr in HR. cbn [rev] in HR.
  etransitivity; [|apply (path_split p)].
  set (T := rev (take_while not_dot (rev (basename p)))) in *. clearbody T.
  rewrite <- HR, <- !app_assoc. reflexivity.
Qed.

Lemma splitext_basename p : snd (splitext (basename p)) = snd (splitext p).
Proof. unfold splitext. rewrite basename_idem. by repeat case_match. Qed.

Lemma forallb_app_l (f : char -> bool) s1 s2 :
  forallb f (s1 ++ s2) = true → forallb f s1 = true.
Proof. rewrite forallb_app. by intros [? _]%andb_true_iff. Qed.

Lemma splitext_no_slash f :
  forallb not_slash f = true → forallb not_slash (fst (splitext f)) = true.
Proof.
  intros Hf. apply (forallb_app_l _ _ (snd (splitext f))). by rewrite splitext_join.
Qed.

(** The source path is its directory part, its base name and its extension. *)
Lemma source_path_parts v :
  v = path_head v ++ fst (splitext (basename v)) ++ snd (splitext v).
Proof. by rewrite <- splitext_basename, splitext_join, path_split. Qed.

Lemma endswith_slash_snoc x : endswith_slash (x ++ [c_slash]) = true.
Proof. unfold endswith_slash. by rewrite rev_unit. Qed.

Lemma dir_prefix_endswith x : endswith_slash x = true → dir_prefix x.
Proof.
  unfold endswith_slash, dir_prefix, stops, not_slash.
  destruct (rev x); [done|]. by intros ->.
Qed.

Lemma rstrip_slash_normal s :
  rstrip_by (N.eqb c_slash) s = [] ∨ endswith_slash (rstrip_by (N.eqb c_slash) s) = false.
Proof.
  unfold rstrip_by, endswith_slash. rewrite rev_involutive.
  pose proof (lstrip_by_stops (N.eqb c_slash) (rev s)) as Hs.
  destruct (lstrip_by (N.eqb c_slash) (rev s)) as [|c l]; [by left|right].
  cbn in Hs. by rewrite N.eqb_sym.
Qed.

Lemma dirname_normal v : dir_normal (str_or (dirname v) CUR_DIR).
Proof.
  unfold dirname.
  destruct (bool_decide (path_head v = [])) eqn:E1; cbn [negb andb].
  { apply bool_decide_eq_true in E1. rewrite E1. cbn. split; [done|by right]. }
  apply bool_decide_eq_false in E1.
  destruct (all_slashes (path_head v)) eqn:E2; cbn [negb].
  { destruct (path_head v); [done|]. cbn [str_or]. split; [done|by left]. }
  destruct (rstrip_slash_normal (path_head v)) as [E|E].
  - rewrite E. cbn. split; [done|by right].
  - destruct (rstrip_by (N.eqb c_slash) (path_head v)); cbn [str_or].
    + split; [done|by right].
    + split; [done|by right].
Qed.

Lemma all_slashes_endswith d : d ≠ [] → all_slashes d = true → endswith_slash d = true.
Proof.
  intros Hd Ha. unfold endswith_slash, all_slashes in *.
  rewrite <- forallb_rev in Ha.
  destruct (rev d) as [|c l] eqn:E.
  - apply (f_equal (@rev _)) in E. rewrite rev_involutive in E. done.
  - cbn in Ha. apply andb_true_iff in Ha as [Hc _]. by rewrite N.eqb_sym.
Qed.

Lemma not_endswith_not_all d :
  d ≠ [] → endswith_slash d = false → all_slashes (d ++ [c_slash]) = false.
Proof.
  intros Hd He. destruct (all_slashes (d ++ [c_slash])) eqn:E; [|done].
  unfold all_slashes in E. apply forallb_app_l in E.
  by rewrite (all_slashes_endswith d) in He.
Qed.

Lemma rstrip_slash_snoc d :
  endswith_slash d = false → rstrip_by (N.eqb c_slash) (d ++ [c_slash]) = d.
Proof.
  intros He. unfold rstrip_by. rewrite rev_unit. cbn [lstrip_by].
  rewrite N.eqb_refl. rewrite lstrip_by_id; [apply rev_involutive|].
  unfold endswith_slash in He. unfold stops. destruct (rev d); [done|].
  by rewrite N.eqb_sym.
Qed.

(** Joining a normal directory and a file name, and splitting again. *)
Lemma split_of_join d f :
  dir_normal d → forallb not_slash f = true →
  dirname (path_join d f) = d ∧ basename (path_join d f) = f.
Proof.
  intros [Hd Hn] Hf. unfold path_join.
  assert (startswith_slash f = false) as ->.
  { destruct f as [|c f]; [done|]. cbn in *. apply andb_true_iff in Hf as [Hc _].
    by apply negb_true_iff in Hc. }
  rewrite bool_decide_eq_false_2 by done. cbn [orb].
  destruct (endswith_slash d) eqn:He.
  - destruct Hn as [Ha|?]; [|done].
    pose proof (dir_prefix_endswith d He) as Hp.
    split; [|by apply basename_app].
    unfold dirname. rewrite path_head_app by done.
    by rewrite Ha, andb_false_r.
  - replace (d ++ c_slash :: f) with ((d ++ [c_slash]) ++ f) by by rewrite <- app_assoc.
    pose proof (dir_prefix_endswith _ (endswith_slash_snoc d)) as Hp.
    split; [|by apply basename_app].
    unfold dirname. rewrite path_head_app by done.
    rewrite not_endswith_not_all by done.
    rewrite bool_decide_eq_false_2 by (by destruct d).
    cbn [negb andb]. by apply rstrip_slash_snoc.
Qed.

Lemma txt_name_no_slash v :
  forallb not_slash (fst (splitext (basename v)) ++ TXT_SUFFIX) = true.
Proof.
  rewrite forallb_app, splitext_no_slash by apply basename_no_slash. reflexivity.
Qed.

(** The transcript lies in the directory of the source and bears its base
    name. *)
Lemma txt_path_split v :
  dirname (txt_path_of v) = str_or (dirname v) CUR_DIR
  ∧ basename (txt_path_of v) = fst (splitext (basename v)) ++ TXT_SUFFIX.
Proof. apply split_of_join; [apply dirname_normal|apply txt_name_no_slash]. Qed.

Lemma path_split_last p c : last (basename p) = Some c → last p = Some c.
Proof.
  intros Hl. rewrite <- (path_split p). destruct (basename p) as [|b l] eqn:E; [done|].
  rewrite last_app. by rewrite Hl.
Qed.

(** The transcript is not the temporary file: one name ends in "t", the
    other in "v". *)
Lemma txt_path_not_wav v stem : txt_path_of v ≠ stem ++ WAV_SUFFIX.
Proof.
  intros E. apply (f_equal last) in E.
  rewrite (path_split_last (txt_path_of v) 116) in E.
  - unfold WAV_SUFFIX in E. rewrite last_app in E. cbn in E. discriminate E.
  - rewrite (proj2 (txt_path_split v)). unfold TXT_SUFFIX. by rewrite last_app.
Qed.

(** ** The runs of the orchestrator, case by case *)

Lemma pair_of_snd {A B : Type} (x : A * B) (b : B) : snd x = b → x = (fst x, b).
Proof. intros <-. apply surjective_pairing. Qed.

Ltac unfold_m :=
  unfold bind, ret, raise, try_finally, try_except, call_status, lift_lib,
    os_path_isfile, os_path_exists, os_remove, os_environ, write_text,
    NamedTemporaryFile, set_fs, set_hook, log;
  cbn [w_fs w_env w_trace w_hook fst snd].

Section Runs.
Context {H Model : Type}.
Variable lib : Collab Model.
Implicit Types (w : World H) (cb : option (str -> H -> H)) (mn : option str).

Lemma audio_of_nonempty w : audio_of lib w ≠ [].
Proof.
  unfold audio_of, WAV_SUFFIX. intros E. apply app_eq_nil in E as [_ E]. discriminate E.
Qed.

Lemma cleanup_run (a : str) w :
  a ≠ [] →
  cleanup (H := H) a w =
    (mkWorld (delete a (w_fs w)) (w_env w) (w_trace w ++ removal (w_fs w) a) (w_hook w),
     Ok tt).
Proof.
  intros Ha. unfold cleanup, removal. unfold_m.
  destruct (is_file (w_fs w) a) eqn:E; cbn [w_fs w_env w_trace w_hook].
  - reflexivity.
  - rewrite app_nil_r. destruct w as [fs env tr h]; cbn in *.
    rewrite delete_id; [reflexivity|].
    unfold is_file in E. apply andb_false_iff in E as [E|E].
    + apply negb_false_iff, bool_decide_eq_true in E. done.
    + apply bool_decide_eq_false in E. by apply eq_None_not_Some.
Qed.

Lemma run_empty mn cb w :
  transcribe_video lib [] mn cb w = (w, Raise (Exn ValueError MSG_NO_PATH)).
Proof. reflexivity. Qed.

Lemma run_missing p mn cb w :
  p ≠ [] → is_file (w_fs w) (normalize_path p) = false →
  transcribe_video lib p mn cb w =
    (w, Raise (Exn FileNotFoundError (MSG_NOT_FOUND ++ normalize_path p))).
Proof.
  intros Hp Hf. unfold transcribe_video.
  rewrite bool_decide_eq_false_2 by done. unfold_m. by rewrite Hf.
Qed.

Lemma run_unsupported p mn cb w :
  p ≠ [] → is_file (w_fs w) (normalize_path p) = true →
  str_in (lower (snd (splitext (normalize_path p)))) SUPPORTED_EXTS = false →
  transcribe_video lib p mn cb w =
    (w, Raise (Exn ValueError (MSG_FORMATS ++ join COMMA_SPACE (sorted SUPPORTED_EXTS)))).
Proof.
  intros Hp Hf Hx. unfold transcribe_video.
  rewrite bool_decide_eq_false_2 by done. unfold_m. by rewrite Hf, Hx.
Qed.

Lemma valid_input_inv fs p :
  valid_input fs p = true →
  p ≠ [] ∧ is_file fs (normalize_path p) = true
  ∧ str_in (lower (snd (splitext (normalize_path p)))) SUPPORTED_EXTS = true.
Proof.
  unfold valid_input. intros E.
  apply andb_true_iff in E as [E E3]. apply andb_true_iff in E as [E1 E2].
  apply negb_true_iff, bool_decide_eq_false in E1. done.
Qed.

(** After validation the run is the guarded pipeline, started in the world
    that holds the temporary file. *)
Lemma run_valid p mn cb w :
  valid_input (w_fs w) p = true →
  transcribe_video lib p mn cb w =
    try_finally
      (try_except is_ffmpeg_error
         (pipeline lib (hook_of cb) (normalize_path p) (audio_of lib w)
            (txt_path_of (normalize_path p)) mn)
         (fun exc => raise (Exn RuntimeError (MSG_FFMPEG ++ exn_msg exc))))
      (cleanup (audio_of lib w))
      (mkWorld (fs_tmp lib w) (w_env w) (w_trace w ++ [EvTempFile (audio_of lib w)]) (w_hook w)).
Proof.
  intros Hv. apply valid_input_inv in Hv as (Hp & Hf & Hx).
  unfold transcribe_video. rewrite bool_decide_eq_false_2 by done.
  unfold bind at 1, os_path_isfile. rewrite Hf. cbn [negb]. rewrite Hx. cbn [negb].
  reflexivity.
Qed.

Section Valid.
Variables (p : str) (mn : option str) (cb : option (str -> H -> H)) (w : World H).
Hypothesis Hvalid : valid_input (w_fs w) p = true.

Let v := normalize_path p.
Let a := audio_of lib w.
Let txt := txt_path_of v.
Let name := resolve_model mn (w_env w).

Ltac start_run :=
  rewrite run_valid by done;
  unfold try_finally, try_except, pipeline, extract_audio, load_model,
    transcribe_audio; unfold_m.
Ltac step_with E := rewrite E; cbn [w_fs w_env w_trace w_hook].
Ltac finish_run :=
  rewrite cleanup_run by apply audio_of_nonempty;
  cbn [w_fs w_env w_trace w_hook]; rewrite ?insert_insert_eq;
  unfold end_world, evs4, evs3, evs2, evs1, hook4, hook2, hook1;
  repeat match goal with x := _ |- _ => subst x end;
  rewrite <- ?app_assoc; reflexivity.

Lemma run_extract_fail fs1 e :
  ffmpeg_run lib v a FFMPEG_OPTS (fs_tmp lib w) = (fs1, Raise e) →
  transcribe_video lib p mn cb w =
    (end_world lib w fs1 (evs1 lib w v) (hook1 cb w), Raise (surfaced e)).
Proof.
  intros E1. start_run. fold v a. step_with E1.
  unfold surfaced. destruct (is_ffmpeg_error e); finish_run.
Qed.

Lemma run_load_fail fs1 u fs2 e :
  ffmpeg_run lib v a FFMPEG_OPTS (fs_tmp lib w) = (fs1, Ok u) →
  whisper_load_model lib name fs1 = (fs2, Raise e) →
  transcribe_video lib p mn cb w =
    (end_world lib w fs2 (evs2 lib w v name) (hook2 cb w), Raise (surfaced e)).
Proof.
  intros E1 E2. start_run. fold v a. step_with E1. fold name. step_with E2.
  unfold surfaced. destruct (is_ffmpeg_error e); finish_run.
Qed.

Lemma run_transcribe_fail fs1 u fs2 model fs3 e :
  ffmpeg_run lib v a FFMPEG_OPTS (fs_tmp lib w) = (fs1, Ok u) →
  whisper_load_model lib name fs1 = (fs2, Ok model) →
  model_transcribe lib model a TRANSCRIBE_OPTS fs2 = (fs3, Raise e) →
  transcribe_video lib p mn cb w =
    (end_world lib w fs3 (evs3 lib w v name) (hook2 cb w), Raise (surfaced e)).
Proof.
  intros E1 E2 E3. start_run. fold v a. step_with E1. fold name. step_with E2.
  step_with E3. unfold surfaced. destruct (is_ffmpeg_error e); finish_run.
Qed.

Lemma run_write_fail fs1 u fs2 model fs3 result :
  ffmpeg_run lib v a FFMPEG_OPTS (fs_tmp lib w) = (fs1, Ok u) →
  whisper_load_model lib name fs1 = (fs2, Ok model) →
  model_transcribe lib model a TRANSCRIBE_OPTS fs2 = (fs3, Ok result) →
  encodable (extract_text result) = false →
  transcribe_video lib p mn cb w =
    (end_world lib w (<[txt := []]> fs3)
       (evs3 lib w v name ++ [EvWrite txt (extract_text result)]) (hook2 cb w),
     Raise (encode_error (extract_text result))).
Proof.
  intros E1 E2 E3 Henc. start_run. fold v a. step_with E1. fold name. step_with E2.
  step_with E3. step_with Henc.
  change (is_ffmpeg_error (encode_error (extract_text result))) with false. cbv iota.
  finish_run.
Qed.

Lemma run_success fs1 u fs2 model fs3 result :
  ffmpeg_run lib v a FFMPEG_OPTS (fs_tmp lib w) = (fs1, Ok u) →
  whisper_load_model lib name fs1 = (fs2, Ok model) →
  model_transcribe lib model a TRANSCRIBE_OPTS fs2 = (fs3, Ok result) →
  encodable (extract_text result) = true →
  transcribe_video lib p mn cb w =
    (end_world lib w (<[txt := extract_text result]> fs3)
       (evs4 lib w v name txt (extract_text result)) (hook4 cb w txt),
     Ok txt).
Proof.
  intros E1 E2 E3 Henc. start_run. fold v a. step_with E1. fold name. step_with E2.
  step_with E3. step_with Henc. finish_run.
Qed.
End Valid.

Lemma valid_input_false fs p :
  valid_input fs p = false →
  p = [] ∨ (p ≠ [] ∧ is_file fs (normalize_path p) = false)
  ∨ (p ≠ [] ∧ is_file fs (normalize_path p) = true
     ∧ str_in (lower (snd (splitext (normalize_path p)))) SUPPORTED_EXTS = false).
Proof.
  unfold valid_input. intros E.
  destruct (decide (p = [])) as [->|Hp]; [by left|right].
  rewrite bool_decide_eq_false_2 in E by done. cbn [negb andb] in E.
  destruct (is_file fs (normalize_path p)); [right|left]; done.
Qed.

(** The function is total, and each of its runs is one of the eight. *)
Lemma run_outcome p mn cb w w' r :
  transcribe_video lib p mn cb w = (w', r) → outcome lib p mn cb w w' r.
Proof.
  intros Hrun.
  assert (fst (transcribe_video lib p mn cb w) = w') as <- by by rewrite Hrun.
  assert (snd (transcribe_video lib p mn cb w) = r) as <- by by rewrite Hrun.
  clear Hrun.
  destruct (valid_input (w_fs w) p) eqn:Hv.
  - destruct (ffmpeg_run lib (normalize_path p) (audio_of lib w) FFMPEG_OPTS (fs_tmp lib w))
      as [fs1 [u|e]] eqn:E1.
    2:{ rewrite (run_extract_fail _ _ _ _ Hv _ _ E1). by eapply out_extract_fail. }
    destruct (whisper_load_model lib (resolve_model mn (w_env w)) fs1)
      as [fs2 [model|e]] eqn:E2.
    2:{ rewrite (run_load_fail _ _ _ _ Hv _ _ _ _ E1 E2). by eapply out_load_fail. }
    destruct (model_transcribe lib model (audio_of lib w) TRANSCRIBE_OPTS fs2)
      as [fs3 [result|e]] eqn:E3.
    2:{ rewrite (run_transcribe_fail _ _ _ _ Hv _ _ _ _ _ _ E1 E2 E3).
        by eapply out_transcribe_fail. }
    destruct (encodable (extract_text result)) eqn:Henc.
    + rewrite (run_success _ _ _ _ Hv _ _ _ _ _ _ E1 E2 E3 Henc). by eapply out_success.
    + rewrite (run_write_fail _ _ _ _ Hv _ _ _ _ _ _ E1 E2 E3 Henc).
      by eapply out_write_fail.
  - apply valid_input_false in Hv as [->|[[Hp Hf]|(Hp & Hf & Hx)]].
    + rewrite run_empty. by constructor.
    + rewrite run_missing by done. by constructor.
    + rewrite run_unsupported by done. by apply out_unsupported.
Qed.



Lemma run_ok_inv p mn cb w w' out :
  transcribe_video lib p mn cb w = (w', Ok out) →
  valid_input (w_fs w) p = true ∧ out = txt_path_of (normalize_path p) ∧
  ∃ fs1 u fs2 model fs3 result,
    ffmpeg_run lib (normalize_path p) (audio_of lib w) FFMPEG_OPTS (fs_tmp lib w)
      = (fs1, Ok u)
    ∧ whisper_load_model lib (resolve_model mn (w_env w)) fs1 = (fs2, Ok model)
    ∧ model_transcribe lib model (audio_of lib w) TRANSCRIBE_OPTS fs2 = (fs3, Ok result)
    ∧ w' = end_world lib w (<[out := extract_text result]> fs3)
             (evs4 lib w (normalize_path p) (resolve_model mn (w_env w)) out
                (extract_text result))
             (hook4 cb w out).
Proof.
  intros Hrun. apply run_outcome in Hrun. inversion Hrun; subst.
  split; [done|]. split; [done|]. eauto 10.
Qed.

Lemma end_world_fs_audio w fs' evs h :
  w_fs (end_world lib w fs' evs h) !! audio_of lib w = None.
Proof. apply lookup_delete_eq. Qed.

Lemma end_world_fs_other w fs' evs h q :
  q ≠ audio_of lib w → w_fs (end_world lib w fs' evs h) !! q = fs' !! q.
Proof. intros Hq. unfold end_world; cbn. by rewrite lookup_delete_ne. Qed.

Lemma statuses_app t1 t2 : statuses (t1 ++ t2) = statuses t1 ++ statuses t2.
Proof. apply omap_app. Qed.

Lemma statuses_removal fs a : statuses (removal fs a) = [].
Proof. unfold removal. by destruct (is_file fs a). Qed.

Lemma temp_files_app t1 t2 : temp_files (t1 ++ t2) = temp_files t1 ++ temp_files t2.
Proof. apply omap_app. Qed.

Lemma temp_files_removal fs a : temp_files (removal fs a) = [].
Proof. unfold removal. by destruct (is_file fs a). Qed.

End Runs.

(** ** C1: the status events of a successful run *)

(** C1, as amended. Whenever [transcribe_video] returns normally, the status
    hook has been called exactly four times during the run, in this order and
    with these messages: "Извлечение аудио...", "Распознавание...", "Готово!"
    and "Сохранено в " followed by the returned output path; the state the
    hook writes to is the result of these four calls, in that order. *)
Theorem status_events_of_successful_run {H Model : Type} (lib : Collab Model)
    (p : str) (mn : option str) (cb : option (str -> H -> H))
    (w w' : World H) (out : str) :
  transcribe_video lib p mn cb w = (w', Ok out) →
  statuses (w_trace w') =
    statuses (w_trace w) ++ [MSG_EXTRACTING; MSG_RECOGNIZING; MSG_DONE; MSG_SAVED ++ out]
  ∧ w_hook w' =
      foldl (fun h m => hook_of cb m h) (w_hook w)
        [MSG_EXTRACTING; MSG_RECOGNIZING; MSG_DONE; MSG_SAVED ++ out].
Proof.
  intros Hrun. apply run_ok_inv in Hrun as (_ & _ & fs1 & u & fs2 & model & fs3 & result
    & _ & _ & _ & ->).
  split; [|reflexivity].
  unfold end_world; cbn [w_trace].
  rewrite !statuses_app, statuses_removal, app_nil_r. reflexivity.
Qed.

Lemma status_events_of_successful_run_witness :
  let run := transcribe_video (lib_ok HELLO) VIDEO None (Some printer)
               (world_with [(VIDEO, [])] []) in
  snd run = Ok VIDEO_TXT
  ∧ w_hook (fst run) = [MSG_EXTRACTING; MSG_RECOGNIZING; MSG_DONE; MSG_SAVED ++ VIDEO_TXT].
Proof.
  intros run.
  assert (Hout : snd run = Ok VIDEO_TXT) by (vm_compute; reflexivity).
  assert (Hrun : run = (fst run, Ok VIDEO_TXT))
    by (rewrite <- Hout; apply surjective_pairing).
  split; [exact Hout|].
  exact (proj2 (status_events_of_successful_run _ _ _ _ _ _ _ Hrun)).
Defined.

(** C1 as stated fails: in a successful run the hook does not receive the
    literal messages "extracting audio", "recognizing", "done",
    "saved to /videos/movie.txt". *)
Lemma english_status_literals_not_emitted :
  let run := transcribe_video (lib_ok HELLO) VIDEO None (Some printer)
               (world_with [(VIDEO, [])] []) in
  snd run = Ok VIDEO_TXT
  ∧ w_hook (fst run) ≠
      [utf8 "extracting audio"; utf8 "recognizing"; utf8 "done";
       utf8 "saved to /videos/movie.txt"].
Proof. split; [vm_compute; reflexivity|]. vm_compute. discriminate. Qed.

(** ** C2: the temporary waveform file *)

(** C2. Whatever the outcome of a run, the calls it made extend the log by
    [evs]; if the input passes validation, exactly one temporary file was
    created, under the name [audio_of lib w], and no file of that name exists
    when the run ends; if the input fails validation, the run raises, has
    made no call at all (no temporary file was created) and leaves the world
    as it found it. *)
Theorem temp_file_released {H Model : Type} (lib : Collab Model)
    (p : str) (mn : option str) (cb : option (str -> H -> H))
    (w w' : World H) (r : res str) :
  transcribe_video lib p mn cb w = (w', r) →
  ∃ evs, w_trace w' = w_trace w ++ evs
    ∧ (∀ a, a ∈ temp_files evs → w_fs w' !! a = None)
    ∧ (valid_input (w_fs w) p = true →
         temp_files evs = [audio_of lib w] ∧ w_fs w' !! audio_of lib w = None)
    ∧ (valid_input (w_fs w) p = false →
         evs = [] ∧ w' = w ∧ ∃ e, r = Raise e).
Proof.
  intros Hrun. apply run_outcome in Hrun.
  assert (Hinv : ∀ e, w' = w → r = Raise e → valid_input (w_fs w) p = false →
    ∃ evs, w_trace w' = w_trace w ++ evs
      ∧ (∀ a, a ∈ temp_files evs → w_fs w' !! a = None)
      ∧ (valid_input (w_fs w) p = true →
           temp_files evs = [audio_of lib w] ∧ w_fs w' !! audio_of lib w = None)
      ∧ (valid_input (w_fs w) p = false → evs = [] ∧ w' = w ∧ ∃ e, r = Raise e)).
  { intros e -> -> Hv. exists []. rewrite app_nil_r, Hv.
    repeat split; try done; [by intros a Ha%elem_of_nil|eauto]. }
  assert (Hval : ∀ fs' evs h, w' = end_world lib w fs' evs h →
    temp_files evs = [audio_of lib w] → valid_input (w_fs w) p = true →
    ∃ evs, w_trace w' = w_trace w ++ evs
      ∧ (∀ a, a ∈ temp_files evs → w_fs w' !! a = None)
      ∧ (valid_input (w_fs w) p = true →
           temp_files evs = [audio_of lib w] ∧ w_fs w' !! audio_of lib w = None)
      ∧ (valid_input (w_fs w) p = false → evs = [] ∧ w' = w ∧ ∃ e, r = Raise e)).
  { intros fs' evs h -> Ht Hv. exists (evs ++ removal fs' (audio_of lib w)).
    rewrite temp_files_app, temp_files_removal, app_nil_r, Ht, Hv.
    repeat split; try done.
    - intros a Ha%list_elem_of_singleton. subst a. apply end_world_fs_audio.
    - apply end_world_fs_audio. }
  inversion Hrun; subst.
  - eapply Hinv; [done..|]. reflexivity.
  - eapply Hinv; [done..|]. unfold valid_input.
    rewrite bool_decide_eq_false_2 by done. cbn [negb andb].
    match goal with E : is_file _ _ = false |- _ => by rewrite E end.
  - eapply Hinv; [done..|]. unfold valid_input.
    rewrite bool_decide_eq_false_2 by done. cbn [negb andb].
    repeat match goal with E : _ = _ |- _ => rewrite E end. done.
  - by eapply Hval.
  - by eapply Hval.
  - by eapply Hval.
  - by eapply Hval.
  - by eapply Hval.
Qed.

Lemma temp_file_released_witness :
  let run := transcribe_video (lib_ffmpeg_fails FFMPEG_ERR) VIDEO None (Some printer)
               (world_with [(VIDEO, [])] []) in
  snd run = Raise (Exn RuntimeError (MSG_FFMPEG ++ exn_msg FFMPEG_ERR))
  ∧ w_fs (fst run) !! (TMP_STEM ++ WAV_SUFFIX) = None.
Proof.
  intros run. split; [vm_compute; reflexivity|].
  destruct (temp_file_released _ _ _ _ _ _ _ (surjective_pairing run))
    as (evs & _ & _ & Hv & _).
  exact (proj2 (Hv ltac:(vm_compute; reflexivity))).
Defined.

(** ** C3: the transcript text *)

Lemma extract_text_spec result : extract_text result = spec_text result.
Proof.
  unfold extract_text, spec_text.
  destruct (strip (default [] (r_text result))) as [|c t] eqn:E.
  - rewrite bool_decide_eq_true_2 by done.
    destruct (r_segments result) as [[|s segs]|]; reflexivity.
  - by rewrite bool_decide_eq_false_2.
Qed.

(** What a successful run leaves at the output path. *)
Lemma persisted_text {H Model : Type} (lib : Collab Model) p mn cb (w w' : World H) out :
  transcribe_video lib p mn cb w = (w', Ok out) →
  ∃ fs2 model fs3 result,
    model_transcribe lib model (audio_of lib w) TRANSCRIBE_OPTS fs2 = (fs3, Ok result)
    ∧ w_fs w' !! out = Some (extract_text result).
Proof.
  intros Hrun. apply run_ok_inv in Hrun as (_ & -> & fs1 & u & fs2 & model & fs3 & result
    & _ & _ & E3 & ->).
  exists fs2, model, fs3, result. split; [done|].
  rewrite end_world_fs_other by apply txt_path_not_wav. apply lookup_insert_eq.
Qed.

(** C3. The text [transcribe_video] extracts from a recognition result is the
    one the specification describes ([spec_text]): the combined text, trimmed,
    and, if that is empty and a segment list is present, the segment texts in
    order, each trimmed, joined by newline, the whole trimmed again. That
    text is the content of the output file after every successful run. For
    the result with text "" and segments "a " and " b" it is "a", newline,
    "b". *)
Theorem transcript_text_extraction :
  (∀ result, extract_text result = spec_text result)
  ∧ (∀ (H Model : Type) (lib : Collab Model) p mn cb (w w' : World H) out,
       transcribe_video lib p mn cb w = (w', Ok out) →
       ∃ fs2 model fs3 result,
         model_transcribe lib model (audio_of lib w) TRANSCRIBE_OPTS fs2 = (fs3, Ok result)
         ∧ w_fs w' !! out = Some (spec_text result))
  ∧ extract_text SEGMENTS_ONLY = [97; c_newline; 98].
Proof.
  split; [apply extract_text_spec|]. split; [|vm_compute; reflexivity].
  intros H Model lib p mn cb w w' out Hrun.
  destruct (persisted_text lib p mn cb w w' out Hrun) as (fs2 & model & fs3 & result & E & Hf).
  exists fs2, model, fs3, result. by rewrite <- extract_text_spec.
Qed.

Lemma transcript_text_extraction_witness :
  let run := transcribe_video (lib_ok SEGMENTS_ONLY) CLIP None (Some printer)
               (world_with [(CLIP, [])] []) in
  ∃ out, snd run = Ok out ∧ w_fs (fst run) !! out = Some [97; c_newline; 98].
Proof.
  intros run. exists (txt_path_of (normalize_path CLIP)).
  assert (Hout : snd run = Ok (txt_path_of (normalize_path CLIP))) by (vm_compute; reflexivity).
  assert (Hrun : run = (fst run, Ok (txt_path_of (normalize_path CLIP))))
    by (rewrite <- Hout; apply surjective_pairing).
  split; [exact Hout|].
  destruct (proj1 (proj2 transcript_text_extraction) _ _ _ _ _ _ _ _ _ Hrun)
    as (fs2 & model & fs3 & result & E & Hf).
  injection E as _ <-. exact Hf.
Defined.

(** ** C4: the output path *)

(** C4. The path a successful run returns is [txt_path_of] of the normalized
    input path, a function of that path alone: the source path being its
    directory part, its base name and its extension, the output path has the
    directory of the source ("." when the source has none), and as file name
    the base name of the source followed by ".txt". After the run the file
    at that path holds the extracted text, whatever was there before. *)
Theorem output_path_of_successful_run {H Model : Type} (lib : Collab Model)
    (p : str) (mn : option str) (cb : option (str -> H -> H))
    (w w' : World H) (out : str) :
  transcribe_video lib p mn cb w = (w', Ok out) →
  out = txt_path_of (normalize_path p)
  ∧ normalize_path p =
      path_head (normalize_path p)
      ++ fst (splitext (basename (normalize_path p))) ++ snd (splitext (normalize_path p))
  ∧ dirname out = str_or (dirname (normalize_path p)) CUR_DIR
  ∧ basename out = fst (splitext (basename (normalize_path p))) ++ TXT_SUFFIX
  ∧ ∃ fs2 model fs3 result,
      model_transcribe lib model (audio_of lib w) TRANSCRIBE_OPTS fs2 = (fs3, Ok result)
      ∧ w_fs w' !! out = Some (extract_text result).
Proof.
  intros Hrun. pose proof (persisted_text lib p mn cb w w' out Hrun) as Hp.
  apply run_ok_inv in Hrun as (_ & -> & _).
  split; [done|]. split; [apply source_path_parts|].
  split; [apply txt_path_split|]. split; [apply txt_path_split|]. exact Hp.
Qed.

Lemma output_path_of_successful_run_witness :
  let run := transcribe_video (lib_ok HELLO) VIDEO None (Some printer)
               (world_with [(VIDEO, []); (VIDEO_TXT, utf8 "an older transcript")] []) in
  snd run = Ok VIDEO_TXT
  ∧ VIDEO_TXT = txt_path_of (normalize_path VIDEO)
  ∧ w_fs (fst run) !! VIDEO_TXT = Some (utf8 "hello world").
Proof.
  intros run.
  assert (Hout : snd run = Ok VIDEO_TXT) by (vm_compute; reflexivity).
  assert (Hrun : run = (fst run, Ok VIDEO_TXT))
    by (rewrite <- Hout; apply surjective_pairing).
  split; [exact Hout|]. split; [|vm_compute; reflexivity].
  exact (proj1 (output_path_of_successful_run _ _ _ _ _ _ _ Hrun)).
Defined.

(** ** C5: input validation *)

Lemma lstrip_by_all f s : forallb f s = true → lstrip_by f s = [].
Proof.
  induction s as [|c s IH]; cbn; [done|].
  intros [Hc Hs]%andb_true_iff. rewrite Hc. by apply IH.
Qed.

(** A path of white space only is trimmed to the empty string. *)
Lemma normalize_path_blank p : forallb isspace p = true → normalize_path p = [].
Proof.
  intros Hp. unfold normalize_path, strip, strip_by. by rewrite lstrip_by_all.
Qed.

Lemma formats_message :
  MSG_FORMATS ++ join COMMA_SPACE (sorted SUPPORTED_EXTS)
  = utf8 "Поддерживаемые форматы: .avi, .mov, .mp4".
Proof. vm_compute. reflexivity. Qed.

(** C5, as amended. [transcribe_video] validates its input in this order,
    each test with its own error, raised before anything else happens (the
    world is unchanged):
    (a) the path as given, before any trimming, is empty: ValueError
        "Путь к файлу не указан.";
    (b) otherwise the path, trimmed of surrounding white space, then of
        surrounding double quotes, then of surrounding single quotes, is not
        an existing regular file: FileNotFoundError "Файл не найден: <path>";
        this is the error of every non-empty path that is trimmed to the
        empty string, and so of every non-empty path of white space only;
    (c) otherwise the extension of the trimmed path, lowercased, is not one
        of .mp4, .mov, .avi: ValueError
        "Поддерживаемые форматы: .avi, .mov, .mp4". *)
Theorem validation_failures {H Model : Type} (lib : Collab Model)
    (p : str) (mn : option str) (cb : option (str -> H -> H)) (w : World H) :
  (p = [] →
     transcribe_video lib p mn cb w = (w, Raise (Exn ValueError MSG_NO_PATH)))
  ∧ (p ≠ [] → is_file (w_fs w) (normalize_path p) = false →
     transcribe_video lib p mn cb w =
       (w, Raise (Exn FileNotFoundError (MSG_NOT_FOUND ++ normalize_path p))))
  ∧ (p ≠ [] → normalize_path p = [] →
     transcribe_video lib p mn cb w = (w, Raise (Exn FileNotFoundError MSG_NOT_FOUND)))
  ∧ (p ≠ [] → forallb isspace p = true →
     transcribe_video lib p mn cb w = (w, Raise (Exn FileNotFoundError MSG_NOT_FOUND)))
  ∧ (p ≠ [] → is_file (w_fs w) (normalize_path p) = true →
     str_in (lower (snd (splitext (normalize_path p)))) SUPPORTED_EXTS = false →
     transcribe_video lib p mn cb w =
       (w, Raise (Exn ValueError (utf8 "Поддерживаемые форматы: .avi, .mov, .mp4")))).
Proof.
  assert (Hblank : p ≠ [] → normalize_path p = [] →
    transcribe_video lib p mn cb w = (w, Raise (Exn FileNotFoundError MSG_NOT_FOUND))).
  { intros Hp Hn. rewrite run_missing; [|done|by rewrite Hn].
    by rewrite Hn, app_nil_r. }
  split; [intros ->; apply run_empty|].
  split; [apply run_missing|]. split; [exact Hblank|].
  split; [intros Hp Hs; by apply Hblank, normalize_path_blank|].
  intros Hp Hf Hx. rewrite <- formats_message. by apply run_unsupported.
Qed.

Lemma validation_failures_witness :
  let w := world_with [(NOTES, [])] [] in
  transcribe_video (lib_ok HELLO) [] None (Some printer) w
    = (w, Raise (Exn ValueError MSG_NO_PATH))
  ∧ transcribe_video (lib_ok HELLO) (utf8 "   ") None (Some printer) w
    = (w, Raise (Exn FileNotFoundError MSG_NOT_FOUND))
  ∧ transcribe_video (lib_ok HELLO) CLIP None (Some printer) w
    = (w, Raise (Exn FileNotFoundError (MSG_NOT_FOUND ++ CLIP)))
  ∧ transcribe_video (lib_ok HELLO) NOTES None (Some printer) w
    = (w, Raise (Exn ValueError (utf8 "Поддерживаемые форматы: .avi, .mov, .mp4"))).
Proof.
  intros w.
  split; [exact (proj1 (validation_failures (lib_ok HELLO) [] None (Some printer) w) eq_refl)|].
  split.
  { apply (validation_failures (lib_ok HELLO) (utf8 "   ") None (Some printer) w);
      [discriminate|vm_compute; reflexivity]. }
  split.
  { apply (proj1 (proj2 (validation_failures (lib_ok HELLO) CLIP None (Some printer) w)));
      [discriminate|vm_compute; reflexivity]. }
  apply (validation_failures (lib_ok HELLO) NOTES None (Some printer) w);
    [discriminate|vm_compute; reflexivity|vm_compute; reflexivity].
Defined.

(** C5 as stated fails: a path of one space is empty after trimming, yet the
    run does not fail with the empty-path error; it fails with the
    missing-file error. *)
Lemma blank_path_reported_missing :
  let run := transcribe_video (lib_ok HELLO) (utf8 " ") None (Some printer)
               (world_with [(VIDEO, [])] []) in
  normalize_path (utf8 " ") = []
  ∧ snd run = Raise (Exn FileNotFoundError MSG_NOT_FOUND)
  ∧ snd run ≠ Raise (Exn ValueError MSG_NO_PATH).
Proof.
  split; [vm_compute; reflexivity|].
  split; [vm_compute; reflexivity|]. vm_compute. discriminate.
Qed.

(** Nor is a path of quote characters always trimmed to the empty string: the
    three characters single quote, double quote, single quote leave a double
    quote, and if a file has that name the run fails on its extension. *)
Example quotes_path_not_emptied :
  let run := transcribe_video (lib_ok HELLO) [c_squote; c_dquote; c_squote] None
               (Some printer) (world_with [([c_dquote], [])] []) in
  normalize_path [c_squote; c_dquote; c_squote] = [c_dquote]
  ∧ snd run = Raise (Exn ValueError (utf8 "Поддерживаемые форматы: .avi, .mov, .mp4")).
Proof. split; vm_compute; reflexivity. Qed.

(** The extension is compared without regard to case. *)
Example uppercase_extension_accepted :
  valid_input (list_to_map [(utf8 "/videos/MOVIE.Mp4", [])]) (utf8 " '/videos/MOVIE.Mp4' ")
  = true.
Proof. vm_compute. reflexivity. Qed.

(** ** C6: failures of the collaborators *)

Lemma surfaced_ffmpeg e :
  exn_kind e = FfmpegError → surfaced e = Exn RuntimeError (MSG_FFMPEG ++ exn_msg e).
Proof. unfold surfaced, is_ffmpeg_error. by intros ->. Qed.

Lemma surfaced_other e : exn_kind e ≠ FfmpegError → surfaced e = e.
Proof. unfold surfaced, is_ffmpeg_error. by destruct (exn_kind e). Qed.

Lemma lib_calls_app t1 t2 : lib_calls (t1 ++ t2) = lib_calls t1 ++ lib_calls t2.
Proof. apply List.filter_app. Qed.

Lemma lib_calls_removal fs a : lib_calls (removal fs a) = [].
Proof. unfold removal. by destruct (is_file fs a). Qed.

(** C6, as amended. In a run whose input is valid, a failure of a
    collaborator ends the run with an exception, after one call of that
    collaborator and with the temporary file removed:
    - an exception [e] of class ffmpeg.Error is replaced by a RuntimeError
      whose message is "Ошибка ffmpeg: " followed by the message of [e];
    - any other exception, in particular that of the transcription model
      ([whisper.load_model] or [model.transcribe]), is not wrapped: the run
      raises the collaborator's own exception, unchanged.
    The log of the run shows each collaborator called at most once, none
    after the failing call. *)
Theorem collaborator_failures {H Model : Type} (lib : Collab Model)
    (p : str) (mn : option str) (cb : option (str -> H -> H)) (w : World H) :
  valid_input (w_fs w) p = true →
  let v := normalize_path p in
  let a := audio_of lib w in
  let name := resolve_model mn (w_env w) in
  let run := transcribe_video lib p mn cb w in
  (∀ e, exn_kind e = FfmpegError →
        surfaced e = Exn RuntimeError (MSG_FFMPEG ++ exn_msg e))
  ∧ (∀ e, exn_kind e ≠ FfmpegError → surfaced e = e)
  ∧ (∀ fs1 e,
       ffmpeg_run lib v a FFMPEG_OPTS (fs_tmp lib w) = (fs1, Raise e) →
       snd run = Raise (surfaced e)
       ∧ (∃ evs, w_trace (fst run) = w_trace w ++ evs ∧ lib_calls evs = [EvExtract v a])
       ∧ w_fs (fst run) !! a = None)
  ∧ (∀ fs1 u fs2 e,
       ffmpeg_run lib v a FFMPEG_OPTS (fs_tmp lib w) = (fs1, Ok u) →
       whisper_load_model lib name fs1 = (fs2, Raise e) →
       snd run = Raise (surfaced e)
       ∧ (∃ evs, w_trace (fst run) = w_trace w ++ evs
                 ∧ lib_calls evs = [EvExtract v a; EvLoadModel name])
       ∧ w_fs (fst run) !! a = None)
  ∧ (∀ fs1 u fs2 model fs3 e,
       ffmpeg_run lib v a FFMPEG_OPTS (fs_tmp lib w) = (fs1, Ok u) →
       whisper_load_model lib name fs1 = (fs2, Ok model) →
       model_transcribe lib model a TRANSCRIBE_OPTS fs2 = (fs3, Raise e) →
       snd run = Raise (surfaced e)
       ∧ (∃ evs, w_trace (fst run) = w_trace w ++ evs
                 ∧ lib_calls evs = [EvExtract v a; EvLoadModel name; EvTranscribe a])
       ∧ w_fs (fst run) !! a = None).
Proof.
  intros Hv v a name run.
  split; [apply surfaced_ffmpeg|]. split; [apply surfaced_other|].
  split; [|split].
  - intros fs1 e E1. subst run. rewrite (run_extract_fail lib _ _ _ _ Hv _ _ E1).
    cbn [fst snd]. split; [done|]. split; [|apply end_world_fs_audio].
    eexists. split; [reflexivity|].
    by rewrite lib_calls_app, lib_calls_removal.
  - intros fs1 u fs2 e E1 E2. subst run.
    rewrite (run_load_fail lib _ _ _ _ Hv _ _ _ _ E1 E2).
    cbn [fst snd]. split; [done|]. split; [|apply end_world_fs_audio].
    eexists. split; [reflexivity|].
    by rewrite lib_calls_app, lib_calls_removal.
  - intros fs1 u fs2 model fs3 e E1 E2 E3. subst run.
    rewrite (run_transcribe_fail lib _ _ _ _ Hv _ _ _ _ _ _ E1 E2 E3).
    cbn [fst snd]. split; [done|]. split; [|apply end_world_fs_audio].
    eexists. split; [reflexivity|].
    by rewrite lib_calls_app, lib_calls_removal.
Qed.

Lemma collaborator_failures_witness :
  let w := world_with [(VIDEO, [])] [] in
  snd (transcribe_video (lib_ffmpeg_fails FFMPEG_ERR) VIDEO None (Some printer) w)
    = Raise (Exn RuntimeError
               (utf8 "Ошибка ffmpeg: ffmpeg error (see stderr output for detail)"))
  ∧ snd (transcribe_video (lib_model_fails MODEL_ERR) VIDEO None (Some printer) w)
    = Raise MODEL_ERR.
Proof.
  intros w. split.
  - destruct (collaborator_failures (lib_ffmpeg_fails FFMPEG_ERR) VIDEO None (Some printer) w
                ltac:(vm_compute; reflexivity)) as (_ & _ & Hx & _).
    destruct (Hx _ FFMPEG_ERR eq_refl) as [Hr _].
    etransitivity; [exact Hr|]. vm_compute. reflexivity.
  - destruct (collaborator_failures (lib_model_fails MODEL_ERR) VIDEO None (Some printer) w
                ltac:(vm_compute; reflexivity)) as (_ & _ & _ & _ & Ht).
    destruct (Ht _ tt _ tt _ MODEL_ERR eq_refl eq_refl eq_refl) as [Hr _].
    etransitivity; [exact Hr|]. vm_compute. reflexivity.
Defined.

(** C6 as stated fails: when the transcription model fails, the run raises
    the model's own exception; it is not wrapped into another exception that
    carries its message, under any class and any prefix. *)
Lemma recognition_failure_not_wrapped :
  let run := transcribe_video (lib_model_fails MODEL_ERR) VIDEO None (Some printer)
               (world_with [(VIDEO, [])] []) in
  snd run = Raise MODEL_ERR
  ∧ ∀ kind prefix, prefix ≠ [] → snd run ≠ Raise (Exn kind (prefix ++ exn_msg MODEL_ERR)).
Proof.
  intros run.
  assert (Hrun : snd run = Raise MODEL_ERR) by (vm_compute; reflexivity).
  split; [exact Hrun|]. intros kind prefix Hp. rewrite Hrun. intros E.
  injection E as _ E. apply (f_equal length) in E. rewrite length_app in E.
  destruct prefix; [done|]. cbn [length] in E. lia.
Qed.

(** ** C9: the model identifier *)

(** C9, as amended. The model identifier is [resolve_model] of the argument
    and the environment, a function of these two alone: an argument that is
    given and is not the empty string is taken as it is; otherwise (no
    argument, or the empty string) the value of WHISPER_MODEL is taken if the
    variable is set; otherwise "base". That identifier is the one
    [whisper.load_model] is called with, and its answer decides the run: in
    a run whose input is valid and whose extraction returned, if loading the
    resolved identifier raises, the run raises that exception (as the
    except clause surfaces it); if it returns a model, this model is the one
    that transcribes, and the run returns, with its text in the output file,
    or raises, as the transcription of that model does. *)
Theorem model_resolution {H Model : Type} (lib : Collab Model)
    (p : str) (mn : option str) (cb : option (str -> H -> H)) (w : World H) :
  (∀ c m environ, resolve_model (Some (c :: m)) environ = c :: m)
  ∧ (∀ mn' environ e, mn' = None ∨ mn' = Some [] →
       environ !! WHISPER_MODEL = Some e → resolve_model mn' environ = e)
  ∧ (∀ mn' environ, mn' = None ∨ mn' = Some [] →
       environ !! WHISPER_MODEL = None → resolve_model mn' environ = utf8 "base")
  ∧ (valid_input (w_fs w) p = true →
     ∀ fs1 u,
       ffmpeg_run lib (normalize_path p) (audio_of lib w) FFMPEG_OPTS (fs_tmp lib w)
         = (fs1, Ok u) →
       let run := transcribe_video lib p mn cb w in
       let out := txt_path_of (normalize_path p) in
       (∀ fs2 e,
          whisper_load_model lib (resolve_model mn (w_env w)) fs1 = (fs2, Raise e) →
          snd run = Raise (surfaced e))
       ∧ (∀ fs2 model fs3 e,
            whisper_load_model lib (resolve_model mn (w_env w)) fs1 = (fs2, Ok model) →
            model_transcribe lib model (audio_of lib w) TRANSCRIBE_OPTS fs2
              = (fs3, Raise e) →
            snd run = Raise (surfaced e))
       ∧ (∀ fs2 model fs3 result,
            whisper_load_model lib (resolve_model mn (w_env w)) fs1 = (fs2, Ok model) →
            model_transcribe lib model (audio_of lib w) TRANSCRIBE_OPTS fs2
              = (fs3, Ok result) →
            encodable (extract_text result) = true →
            snd run = Ok out ∧ w_fs (fst run) !! out = Some (extract_text result))).
Proof.
  split; [done|]. split; [|split].
  - intros mn' environ e [->| ->] He; cbn; by rewrite He.
  - intros mn' environ [->| ->] He; cbn; by rewrite He.
  - intros Hv fs1 u E1 run out. subst run out. split; [|split].
    + intros fs2 e E2. by rewrite (run_load_fail lib _ _ _ _ Hv _ _ _ _ E1 E2).
    + intros fs2 model fs3 e E2 E3.
      by rewrite (run_transcribe_fail lib _ _ _ _ Hv _ _ _ _ _ _ E1 E2 E3).
    + intros fs2 model fs3 result E2 E3 Henc.
      rewrite (run_success lib _ _ _ _ Hv _ _ _ _ _ _ E1 E2 E3 Henc). cbn [fst snd].
      split; [done|].
      rewrite end_world_fs_other by apply txt_path_not_wav. apply lookup_insert_eq.
Qed.

(** With [lib_echo] the transcript is the name of the model that was loaded. *)
Lemma model_resolution_witness :
  let disk : gmap str str := {[ VIDEO := [] ]} in
  let small : gmap str str := {[ WHISPER_MODEL := utf8 "small" ]} in
  w_fs (fst (transcribe_video lib_echo VIDEO None (Some printer)
               (mkWorld disk small [] []))) !! VIDEO_TXT = Some (utf8 "small")
  ∧ w_fs (fst (transcribe_video lib_echo VIDEO (Some (utf8 "large")) (Some printer)
                 (mkWorld disk small [] []))) !! VIDEO_TXT = Some (utf8 "large")
  ∧ w_fs (fst (transcribe_video lib_echo VIDEO None (Some printer)
                 (mkWorld disk ∅ [] []))) !! VIDEO_TXT = Some (utf8 "base").
Proof.
  intros disk small.
  assert (Hrun : ∀ mn env name text,
    resolve_model mn env = name →
    extract_text {| r_text := Some name; r_segments := None |} = text →
    encodable text = true →
    w_fs (fst (transcribe_video lib_echo VIDEO mn (Some printer) (mkWorld disk env [] [])))
      !! VIDEO_TXT = Some text).
  { intros mn env name text Hname Htext Henc.
    destruct (model_resolution lib_echo VIDEO mn (Some printer) (mkWorld disk env [] []))
      as (_ & _ & _ & Hlink).
    destruct (Hlink ltac:(vm_compute; reflexivity) _ tt eq_refl) as (_ & _ & Hok).
    cbn [w_env] in Hok. rewrite Hname in Hok.
    assert (Hpath : txt_path_of (normalize_path VIDEO) = VIDEO_TXT)
      by (vm_compute; reflexivity).
    rewrite Hpath in Hok.
    destruct (Hok _ name _ {| r_text := Some name; r_segments := None |} eq_refl eq_refl)
      as [_ Hfile]; [by rewrite Htext|].
    by rewrite Htext in Hfile. }
  split; [|split].
  - apply (Hrun None small (utf8 "small")); vm_compute; reflexivity.
  - apply (Hrun (Some (utf8 "large")) small (utf8 "large")); vm_compute; reflexivity.
  - apply (Hrun None ∅ (utf8 "base")); vm_compute; reflexivity.
Defined.

(** C9 as stated fails: an explicit argument that is the empty string, as
    the GUI supplies when its model field is empty, is not the identifier
    used; with WHISPER_MODEL set to "small" the model loaded is "small". *)
Lemma empty_argument_not_used :
  let w : World (list tuple) :=
    mkWorld {[ VIDEO := [] ]} {[ WHISPER_MODEL := utf8 "small" ]} [] [] in
  let run := transcribe_video lib_echo VIDEO (Some []) (Some post_status) w in
  resolve_model (Some []) (w_env w) = utf8 "small"
  ∧ resolve_model (Some []) (w_env w) ≠ []
  ∧ loaded_models (w_trace (fst run)) = [utf8 "small"]
  ∧ w_fs (fst run) !! VIDEO_TXT = Some (utf8 "small").
Proof. repeat split; try (vm_compute; reflexivity). vm_compute. discriminate. Qed.

(** ** C10: an empty transcript *)

(** C10. If the input is valid, both collaborators return, the text of the
    recognition result is empty after trimming and its segment list is absent
    or empty, then the run returns the output path, the file at that path is
    empty, and the status hook has been called with the four messages,
    "Готово!" and the saved-path message last: the log shows these four
    calls and the state the hook writes to is the result of them. *)
Theorem empty_transcript_succeeds {H Model : Type} (lib : Collab Model)
    (p : str) (mn : option str) (cb : option (str -> H -> H)) (w : World H)
    (fs1 fs2 fs3 : gmap str str) (u : unit) (model : Model) (result : RecResult) :
  valid_input (w_fs w) p = true →
  ffmpeg_run lib (normalize_path p) (audio_of lib w) FFMPEG_OPTS (fs_tmp lib w)
    = (fs1, Ok u) →
  whisper_load_model lib (resolve_model mn (w_env w)) fs1 = (fs2, Ok model) →
  model_transcribe lib model (audio_of lib w) TRANSCRIBE_OPTS fs2 = (fs3, Ok result) →
  strip (default [] (r_text result)) = [] →
  r_segments result = None ∨ r_segments result = Some [] →
  let out := txt_path_of (normalize_path p) in
  let run := transcribe_video lib p mn cb w in
  snd run = Ok out
  ∧ w_fs (fst run) !! out = Some []
  ∧ statuses (w_trace (fst run)) =
      statuses (w_trace w) ++ [MSG_EXTRACTING; MSG_RECOGNIZING; MSG_DONE; MSG_SAVED ++ out]
  ∧ w_hook (fst run) =
      foldl (fun h m => hook_of cb m h) (w_hook w)
        [MSG_EXTRACTING; MSG_RECOGNIZING; MSG_DONE; MSG_SAVED ++ out].
Proof.
  intros Hv E1 E2 E3 Ht Hs out run. subst run.
  assert (Hempty : extract_text result = []).
  { unfold extract_text. rewrite Ht. by destruct Hs as [-> | ->]. }
  assert (Henc : encodable (extract_text result) = true) by by rewrite Hempty.
  rewrite (run_success lib _ _ _ _ Hv _ _ _ _ _ _ E1 E2 E3 Henc). cbn [fst snd].
  rewrite Hempty.
  split; [done|]. split; [|split].
  - rewrite end_world_fs_other by apply txt_path_not_wav. apply lookup_insert_eq.
  - unfold end_world; cbn [w_trace].
    by rewrite !statuses_app, statuses_removal, app_nil_r.
  - reflexivity.
Qed.

Lemma empty_transcript_succeeds_witness :
  let run := transcribe_video (lib_ok SILENCE) VIDEO None (Some printer)
               (world_with [(VIDEO, [])] []) in
  snd run = Ok VIDEO_TXT
  ∧ w_fs (fst run) !! VIDEO_TXT = Some []
  ∧ w_hook (fst run) = [MSG_EXTRACTING; MSG_RECOGNIZING; MSG_DONE; MSG_SAVED ++ VIDEO_TXT].
Proof.
  intros run.
  destruct (empty_transcript_succeeds (lib_ok SILENCE) VIDEO None (Some printer)
              (world_with [(VIDEO, [])] []) _ _ _ tt tt SILENCE
              ltac:(vm_compute; reflexivity) eq_refl eq_refl eq_refl
              ltac:(vm_compute; reflexivity) ltac:(right; reflexivity))
    as (Hout & Hfile & _ & Hhook).
  split; [exact Hout|]. split; [exact Hfile|exact Hhook].
Defined.

(** ** C8: the command line *)

Lemma args_of_no_flag raw_args : str_in GUI_FLAG raw_args = false → args_of raw_args = raw_args.
Proof.
  unfold str_in, args_of. induction raw_args as [|a rest IH]; [done|].
  cbn [existsb List.filter]. intros [Ha Hr]%orb_false_iff.
  unfold str_eqb in *. apply bool_decide_eq_false in Ha.
  rewrite bool_decide_eq_false_2 by congruence. cbn [negb]. by rewrite IH.
Qed.

Lemma str_in_elem x xs : str_in x xs = true ↔ x ∈ xs.
Proof.
  unfold str_in. rewrite existsb_exists. split.
  - intros (y & Hy & E). apply bool_decide_eq_true in E. subst y.
    by apply list_elem_of_In.
  - intros Hx. exists x. split; [by apply list_elem_of_In|].
    by apply bool_decide_eq_true.
Qed.

(** When the GUI is not selected, the command line holds an argument. *)
Lemma usage_unreachable raw_args : use_gui_of raw_args = false → args_of raw_args ≠ [].
Proof.
  unfold use_gui_of. intros [Hf He]%orb_false_iff.
  rewrite args_of_no_flag by done. by apply bool_decide_eq_false in He.
Qed.

Lemma main_headless {Model : Type} (lib : Collab Model) arg0 rest (w : World (list str)) :
  GUI_FLAG ∉ arg0 :: rest → main lib (arg0 :: rest) w = run_cli lib arg0 w.
Proof.
  intros Hf. unfold main, main_body.
  assert (Hin : str_in GUI_FLAG (arg0 :: rest) = false).
  { destruct (str_in GUI_FLAG (arg0 :: rest)) eqn:E; [|done]. by apply str_in_elem in E. }
  unfold use_gui_of. rewrite Hin, args_of_no_flag by done. reflexivity.
Qed.

(** C8. With no arguments at all, or with a --gui flag, [main] launches the
    GUI. In headless mode (arguments and no flag) it runs the pipeline on
    the first argument: if that returns, the process ends with exit code 0;
    if it raises, with exit code 1. Where lines 207-216 of [main] find the
    GUI not selected and the argument list empty, they print the two lines
    of the usage text on standard output and exit with code 1, and that is
    what [main] does on any command line for which it computes these two
    values. *)
Theorem command_line_surface {Model : Type} (lib : Collab Model)
    (raw_args : list str) (w : World (list str)) :
  (raw_args = [] ∨ GUI_FLAG ∈ raw_args →
     main lib raw_args w = (log EvLaunchGui w, Returned))
  ∧ (∀ arg0 rest, raw_args = arg0 :: rest → GUI_FLAG ∉ raw_args →
       (∀ w' txt, transcribe_video lib arg0 None (Some printer) w = (w', Ok txt) →
          main lib raw_args w = (print_line (MSG_RESULT ++ txt) w', Returned)
          ∧ exit_status (snd (main lib raw_args w)) = 0)
       ∧ (∀ w' e, transcribe_video lib arg0 None (Some printer) w = (w', Raise e) →
          main lib raw_args w = (print_line (exn_msg e) w', SysExit 1)
          ∧ exit_status (snd (main lib raw_args w)) = 1))
  ∧ (main lib raw_args w = main_body lib (use_gui_of raw_args) (args_of raw_args) w
     ∧ w_hook (fst (main_body lib false [] w)) = w_hook w ++ [USAGE_1; USAGE_2]
     ∧ exit_status (snd (main_body lib false [] w)) = 1
     ∧ w_fs (fst (main_body lib false [] w)) = w_fs w
     ∧ (use_gui_of raw_args = false → args_of raw_args = [] →
        w_hook (fst (main lib raw_args w)) = w_hook w ++ [USAGE_1; USAGE_2]
        ∧ exit_status (snd (main lib raw_args w)) = 1)).
Proof.
  split; [|split].
  - intros Hg. unfold main, main_body.
    assert (use_gui_of raw_args = true) as ->; [|done].
    unfold use_gui_of. destruct Hg as [->|Hg]; [done|].
    apply str_in_elem in Hg. by rewrite Hg.
  - intros arg0 rest -> Hf. rewrite main_headless by done.
    unfold run_cli, bind. split.
    + intros w' txt ->. done.
    + intros w' e ->. done.
  - split; [done|].
    assert (Hout : w_hook (fst (main_body lib false [] w)) = w_hook w ++ [USAGE_1; USAGE_2]).
    { unfold main_body, print_line, printer. cbn [fst set_hook w_hook].
      by rewrite <- app_assoc. }
    split; [exact Hout|]. split; [done|]. split; [done|].
    intros Hg Ha. unfold main. by rewrite Hg, Ha.
Qed.

Lemma command_line_surface_witness :
  let w := world_with [(VIDEO, [])] [] in
  main (lib_ok HELLO) [GUI_FLAG; VIDEO] w = (log EvLaunchGui w, Returned)
  ∧ exit_status (snd (main (lib_ok HELLO) [VIDEO] w)) = 0
  ∧ exit_status (snd (main (lib_ok HELLO) [NOTES] w)) = 1
  ∧ w_hook (fst (main_body (lib_ok HELLO) false [] w)) = [USAGE_1; USAGE_2].
Proof.
  intros w.
  split.
  { apply (proj1 (command_line_surface (lib_ok HELLO) [GUI_FLAG; VIDEO] w)).
    right. apply list_elem_of_here. }
  split; [|split].
  - destruct (command_line_surface (lib_ok HELLO) [VIDEO] w) as (_ & Hh & _).
    destruct (Hh VIDEO [] eq_refl) as [Hok _].
    { intros Hin%list_elem_of_singleton. vm_compute in Hin. discriminate Hin. }
    refine (proj2 (Hok (fst (transcribe_video (lib_ok HELLO) VIDEO None (Some printer) w))
                     VIDEO_TXT _)).
    apply pair_of_snd. vm_compute. reflexivity.
  - destruct (command_line_surface (lib_ok HELLO) [NOTES] w) as (_ & Hh & _).
    destruct (Hh NOTES [] eq_refl) as [_ Hfail].
    { intros Hin%list_elem_of_singleton. vm_compute in Hin. discriminate Hin. }
    refine (proj2 (Hfail (fst (transcribe_video (lib_ok HELLO) NOTES None (Some printer) w))
                     (Exn FileNotFoundError (MSG_NOT_FOUND ++ NOTES)) _)).
    apply pair_of_snd. vm_compute. reflexivity.
  - exact (proj1 (proj2 (proj2 (proj2 (command_line_surface (lib_ok HELLO) [] w))))).
Defined.

(** ** C7: the worker and the queue *)

Section WorkerRuns.
Context {Model : Type}.
Variable lib : Collab Model.
Implicit Types (w : World (list tuple)).

Lemma worker_run video model_name w :
  worker lib video model_name w =
    match transcribe_video lib video (Some model_name) (Some post_status) w with
    | (w', Ok path) => (set_hook (queue_put (K_DONE, path) (w_hook w')) w', Ok tt)
    | (w', Raise e) => (set_hook (queue_put (K_ERROR, exn_msg e) (w_hook w')) w', Ok tt)
    end.
Proof.
  unfold worker, try_except, bind.
  by destruct (transcribe_video lib video (Some model_name) (Some post_status) w)
    as [w' [path|e]].
Qed.

(** The hook [post_status] turns the status events of a run into as many
    tuples at the back of the queue. *)
Lemma run_posts_statuses p mn w w' r :
  transcribe_video lib p mn (Some post_status) w = (w', r) →
  ∃ msgs, w_hook w' = w_hook w ++ map (pair K_STATUS) msgs
          ∧ statuses (w_trace w') = statuses (w_trace w) ++ msgs.
Proof.
  intros Hrun. apply run_outcome in Hrun.
  inversion Hrun; subst;
    try (exists []; by rewrite !app_nil_r);
    unfold end_world, hook4, hook2, hook1, hook_of, post_status, queue_put;
    cbn [w_hook w_trace default]; unfold id; cbv beta;
    rewrite !statuses_app, statuses_removal, app_nil_r.
  - exists [MSG_EXTRACTING]. done.
  - exists [MSG_EXTRACTING; MSG_RECOGNIZING]. by rewrite <- !app_assoc.
  - exists [MSG_EXTRACTING; MSG_RECOGNIZING]. by rewrite <- !app_assoc.
  - exists [MSG_EXTRACTING; MSG_RECOGNIZING]. by rewrite <- !app_assoc.
  - exists [MSG_EXTRACTING; MSG_RECOGNIZING; MSG_DONE;
            MSG_SAVED ++ txt_path_of (normalize_path p)].
    by rewrite <- !app_assoc.
Qed.

End WorkerRuns.

(** One poll empties the queue, handles its tuples in FIFO order and re-arms
    the timer. *)
Lemma process_queue_polls q ui :
  fst (process_queue (q, ui)) = []
  ∧ timers (snd (process_queue (q, ui))) = S (timers (drain q ui))
  ∧ status_var (snd (process_queue (q, ui))) = status_var (drain q ui)
  ∧ dialogs (snd (process_queue (q, ui))) = dialogs (drain q ui).
Proof. done. Qed.

Lemma status_not_terminal m : ¬ is_terminal (K_STATUS, m).
Proof. intros [E|E]; discriminate E. Qed.

Lemma sys_steps_cons s1 s2 s3 : sys_step s1 s2 → sys_steps s2 s3 → sys_steps s1 s3.
Proof.
  intros H12 H23. induction H23 as [s|s2 s3 s4 _ IH H34].
  - eapply steps_snoc; [apply steps_refl|done].
  - eapply steps_snoc; [by apply IH|done].
Qed.

Lemma sys_steps_trans s1 s2 s3 : sys_steps s1 s2 → sys_steps s2 s3 → sys_steps s1 s3.
Proof.
  intros H12 H23. induction H23 as [s|s2 s3 s4 _ IH H34]; [done|].
  eapply steps_snoc; [by apply IH|done].
Qed.

(** Nothing is lost, duplicated or reordered between the two threads. *)
Lemma sys_steps_fifo s0 s :
  sys_steps s0 s →
  s_seen s ++ s_queue s ++ s_todo s = s_seen s0 ++ s_queue s0 ++ s_todo s0.
Proof.
  induction 1 as [s|s1 s2 s3 _ IH Hstep]; [done|].
  rewrite <- IH. destruct Hstep; cbn [s_seen s_queue s_todo]; unfold queue_put;
    by rewrite <- !app_assoc.
Qed.

Lemma sys_puts_all todo q ui seen :
  sys_steps (mkSys todo q ui seen) (mkSys [] (q ++ todo) ui seen).
Proof.
  revert q. induction todo as [|t todo IH]; intros q.
  - rewrite app_nil_r. apply steps_refl.
  - eapply sys_steps_cons; [apply step_put|].
    replace (q ++ t :: todo) with (queue_put t q ++ todo)
      by (unfold queue_put; by rewrite <- app_assoc).
    apply IH.
Qed.

Lemma sys_gets_all q ui seen :
  sys_steps (mkSys [] q ui seen) (mkSys [] [] (drain q ui) (seen ++ q)).
Proof.
  revert ui seen. induction q as [|t q IH]; intros ui seen.
  - rewrite app_nil_r. apply steps_refl.
  - eapply sys_steps_cons; [apply step_get|].
    replace (seen ++ t :: q) with ((seen ++ [t]) ++ q) by by rewrite <- app_assoc.
    apply IH.
Qed.

(** Both threads can always run to the end: every put is taken. *)
Lemma sys_runs_out puts ui :
  sys_steps (mkSys puts [] ui []) (mkSys [] [] (drain puts ui) puts).
Proof.
  eapply sys_steps_trans; [apply sys_puts_all|]. apply (sys_gets_all puts ui []).
Qed.

(** In a sequence that ends with its only terminal tuple, a prefix that
    holds a terminal tuple is the whole sequence. *)
Lemma terminal_is_last (body : list tuple) t seen rest t' :
  (∀ x, x ∈ body → ¬ is_terminal x) →
  seen ++ rest = body ++ [t] → t' ∈ seen → is_terminal t' →
  t' = t ∧ seen = body ++ [t] ∧ rest = [].
Proof.
  intros Hbody E Hin Ht'.
  apply app_eq_inv in E as [(k & -> & E)|(k & -> & E)].
  - destruct k as [|x k].
    + rewrite app_nil_r in Hin. by destruct (Hbody t' Hin).
    + cbn in E. injection E as <- E. symmetry in E.
      apply app_eq_nil in E as [-> ->].
      split; [|done]. apply elem_of_app in Hin as [Hin|Hin].
      * by destruct (Hbody t' Hin).
      * by apply list_elem_of_singleton in Hin.
  - destruct (Hbody t'); [|done]. apply elem_of_app. by left.
Qed.

(** C7. One run of the worker adds to the queue the tuples [puts]: one
    ("status", text) tuple for each status event of the run, in order, and
    then exactly one terminal tuple [t], which is ("done", path) if
    [transcribe_video] returned [path] and ("error", message) if it raised;
    the worker itself returns normally. However the puts of the worker and
    the gets of the UI thread interleave, the tuples the UI thread has taken,
    those in the queue and those still to be put are [puts], in this order;
    so once the UI thread has taken a terminal tuple, that tuple is [t], the
    UI thread has taken all of [puts], the queue is empty and the worker puts
    nothing more. Such an end is always reachable. *)
Theorem worker_terminal_tuple {Model : Type} (lib : Collab Model)
    (video model_name : str) (w : World (list tuple)) :
  let run := transcribe_video lib video (Some model_name) (Some post_status) w in
  let puts := worker_puts lib video model_name w in
  ∃ msgs t,
    worker lib video model_name w
      = (set_hook (w_hook w ++ puts) (fst run), Ok tt)
    ∧ puts = map (pair K_STATUS) msgs ++ [t]
    ∧ statuses (w_trace (fst run)) = statuses (w_trace w) ++ msgs
    ∧ (∀ path, snd run = Ok path → t = (K_DONE, path))
    ∧ (∀ e, snd run = Raise e → t = (K_ERROR, exn_msg e))
    ∧ is_terminal t
    ∧ (∀ x, x ∈ map (pair K_STATUS) msgs → ¬ is_terminal x)
    ∧ (∀ ui s, sys_steps (mkSys puts [] ui []) s →
         s_seen s ++ s_queue s ++ s_todo s = puts
         ∧ ∀ t', t' ∈ s_seen s → is_terminal t' →
             t' = t ∧ s_seen s = puts ∧ s_queue s = [] ∧ s_todo s = [])
    ∧ (∀ ui, sys_steps (mkSys puts [] ui []) (mkSys [] [] (drain puts ui) puts)).
Proof.
  intros run puts.
  destruct (run_posts_statuses lib video (Some model_name) w (fst run) (snd run)
              (surjective_pairing run)) as (msgs & Hhook & Hst).
  set (t := match snd run with
            | Ok path => (K_DONE, path)
            | Raise e => (K_ERROR, exn_msg e)
            end).
  assert (Hworker : worker lib video model_name w
            = (set_hook (w_hook w ++ map (pair K_STATUS) msgs ++ [t]) (fst run), Ok tt)).
  { rewrite worker_run. fold run. subst t. rewrite (surjective_pairing run) at 1.
    destruct (snd run); unfold queue_put; by rewrite Hhook, <- app_assoc. }
  assert (Hputs : puts = map (pair K_STATUS) msgs ++ [t]).
  { subst puts. unfold worker_puts. rewrite Hworker. cbn [fst w_hook set_hook].
    by rewrite drop_app_length. }
  assert (Hbody : ∀ x, x ∈ map (pair K_STATUS) msgs → ¬ is_terminal x).
  { intros x (m & -> & _)%list_elem_of_fmap. apply status_not_terminal. }
  exists msgs, t. rewrite Hputs.
  split; [exact Hworker|]. split; [done|]. split; [exact Hst|].
  split; [by intros path E; subst t; rewrite E|].
  split; [by intros e E; subst t; rewrite E|].
  split; [subst t; destruct (snd run); [by left|by right]|].
  split; [exact Hbody|]. split; [|intros ui; apply sys_runs_out].
  intros ui s Hs. apply sys_steps_fifo in Hs. cbn [s_seen s_queue s_todo app] in Hs.
  split; [exact Hs|]. intros t' Hin Ht'.
  destruct (terminal_is_last _ t (s_seen s) (s_queue s ++ s_todo s) t' Hbody Hs Hin Ht')
    as (-> & Hseen & Hrest).
  apply app_eq_nil in Hrest as [-> ->]. done.
Qed.

Lemma worker_terminal_tuple_witness :
  let w := world_with [(VIDEO, [])] [] in
  worker_puts (lib_ok HELLO) VIDEO [] w
    = [(K_STATUS, MSG_EXTRACTING); (K_STATUS, MSG_RECOGNIZING); (K_STATUS, MSG_DONE);
       (K_STATUS, MSG_SAVED ++ VIDEO_TXT); (K_DONE, VIDEO_TXT)]
  ∧ worker_puts (lib_model_fails MODEL_ERR) VIDEO [] w
    = [(K_STATUS, MSG_EXTRACTING); (K_STATUS, MSG_RECOGNIZING);
       (K_ERROR, exn_msg MODEL_ERR)]
  ∧ ∃ msgs, worker_puts (lib_ok HELLO) VIDEO [] w
            = map (pair K_STATUS) msgs ++ [(K_DONE, VIDEO_TXT)].
Proof.
  intros w. split; [vm_compute; reflexivity|]. split; [vm_compute; reflexivity|].
  destruct (worker_terminal_tuple (lib_ok HELLO) VIDEO [] w)
    as (msgs & t & _ & Hputs & _ & Hdone & _).
  exists msgs. rewrite Hputs. do 2 f_equal. apply Hdone. vm_compute. reflexivity.
Defined.

(** * Further properties of the code *)

(** ** [normalize_path] *)

Lemma strip_by_core f l1 m l2 :
  forallb f l1 = true → forallb f l2 = true → stops f m → stops f (rev m) →
  strip_by f (l1 ++ m ++ l2) = m.
Proof.
  intros H1 H2 Hm Hr. unfold strip_by, rstrip_by.
  destruct m as [|c m].
  { cbn [app]. rewrite (lstrip_by_all f (l1 ++ l2)); [done|].
    by rewrite forallb_app, H1, H2. }
  rewrite lstrip_by_app by done.
  rewrite rev_app_distr, lstrip_by_app; [apply rev_involutive| |done].
  by rewrite forallb_rev.
Qed.

Lemma clean_path_ends p :
  clean_path p = true →
  p ≠ []
  ∧ (∀ f, (∀ c, f c = true → trimmed_char c = true) → stops f p ∧ stops f (rev p)).
Proof.
  unfold clean_path. destruct p as [|c p]; [done|].
  destruct (rev (c :: p)) as [|d r]; [done|].
  intros [Hc Hd]%andb_true_iff. split; [done|]. intros f Hf.
  apply negb_true_iff in Hc, Hd. unfold stops. split.
  - destruct (f c) eqn:E; [|done]. apply Hf in E. congruence.
  - destruct (f d) eqn:E; [|done]. apply Hf in E. congruence.
Qed.

Lemma isspace_trimmed c : isspace c = true → trimmed_char c = true.
Proof. unfold trimmed_char. by intros ->. Qed.

Lemma dquote_trimmed c : (c_dquote =? c) = true → trimmed_char c = true.
Proof. unfold trimmed_char. rewrite N.eqb_sym. intros ->. by rewrite orb_true_r. Qed.

Lemma squote_trimmed c : (c_squote =? c) = true → trimmed_char c = true.
Proof. unfold trimmed_char. rewrite N.eqb_sym. intros ->. by rewrite !orb_true_r. Qed.

Lemma strip_by_id f m : stops f m → stops f (rev m) → strip_by f m = m.
Proof.
  intros H1 H2. rewrite <- (app_nil_r m) at 1. by apply (strip_by_core f [] m []).
Qed.

Lemma strip_by_quoted f (q : char) p :
  f q = true → stops f p → stops f (rev p) → strip_by f (q :: p ++ [q]) = p.
Proof.
  intros Hq H1 H2. apply (strip_by_core f [q] p [q]); try done; cbn; by rewrite Hq.
Qed.

Lemma rev_quoted (q : char) (p : str) : rev (q :: p ++ [q]) = q :: rev p ++ [q].
Proof. cbn [rev]. by rewrite rev_unit. Qed.

(** X1. A path with nothing to cut comes back from [normalize_path] as it
    is, whether it is given bare, in double quotes or in single quotes, and
    whatever white space surrounds it. *)
Theorem normalize_path_unquotes (ws1 ws2 p : str) :
  forallb isspace ws1 = true → forallb isspace ws2 = true → clean_path p = true →
  normalize_path (ws1 ++ p ++ ws2) = p
  ∧ normalize_path (ws1 ++ (c_dquote :: p ++ [c_dquote]) ++ ws2) = p
  ∧ normalize_path (ws1 ++ (c_squote :: p ++ [c_squote]) ++ ws2) = p.
Proof.
  intros H1 H2 Hp. destruct (clean_path_ends p Hp) as [Hne He].
  destruct (He isspace isspace_trimmed) as [Hs1 Hs2].
  destruct (He (N.eqb c_dquote) dquote_trimmed) as [Hd1 Hd2].
  destruct (He (N.eqb c_squote) squote_trimmed) as [Hq1 Hq2].
  unfold normalize_path, strip, strip_char. repeat split.
  - rewrite strip_by_core by done.
    rewrite (strip_by_id (N.eqb c_dquote) p) by done. by apply strip_by_id.
  - rewrite strip_by_core; [|done|done|done|by rewrite rev_quoted].
    rewrite strip_by_quoted by done. by apply strip_by_id.
  - rewrite strip_by_core; [|done|done|done|by rewrite rev_quoted].
    rewrite (strip_by_id (N.eqb c_dquote) (c_squote :: p ++ [c_squote]));
      [|done|by rewrite rev_quoted].
    by apply strip_by_quoted.
Qed.

Lemma normalize_path_unquotes_witness :
  normalize_path (utf8 "  '/my videos/clip one.MOV' ") = utf8 "/my videos/clip one.MOV".
Proof.
  exact (proj2 (proj2 (normalize_path_unquotes (utf8 "  ") (utf8 " ")
           (utf8 "/my videos/clip one.MOV") eq_refl eq_refl eq_refl))).
Defined.

Lemma lstrip_by_cut f s : ∃ pre, s = pre ++ lstrip_by f s ∧ forallb f pre = true.
Proof.
  exists (take_while f s). split; [by rewrite take_while_lstrip|apply take_while_all].
Qed.

Lemma rstrip_by_cut f s : ∃ post, s = rstrip_by f s ++ post ∧ forallb f post = true.
Proof.
  destruct (lstrip_by_cut f (rev s)) as (pre & E & Hpre).
  exists (rev pre). split; [|by rewrite forallb_rev].
  unfold rstrip_by. rewrite <- rev_app_distr, <- E. by rewrite rev_involutive.
Qed.

Lemma strip_by_cut f s :
  ∃ pre post, s = pre ++ strip_by f s ++ post
    ∧ forallb f pre = true ∧ forallb f post = true.
Proof.
  destruct (lstrip_by_cut f s) as (pre & E1 & Hpre).
  destruct (rstrip_by_cut f (lstrip_by f s)) as (post & E2 & Hpost).
  exists pre, post. unfold strip_by. by rewrite <- E2, <- E1.
Qed.

Lemma forallb_weaken (f g : char → bool) s :
  (∀ c, f c = true → g c = true) → forallb f s = true → forallb g s = true.
Proof.
  intros Hfg. induction s as [|c s IH]; cbn; [done|].
  intros [Hc Hs]%andb_true_iff. by rewrite (Hfg c Hc), IH.
Qed.

Lemma strip_by_stops f s : stops f (strip_by f s) ∧ stops f (rev (strip_by f s)).
Proof.
  split.
  - destruct (rstrip_by_cut f (lstrip_by f s)) as (post & E & _).
    pose proof (lstrip_by_stops f s) as Hs. rewrite E in Hs.
    unfold strip_by. by destruct (rstrip_by f (lstrip_by f s)).
  - unfold strip_by, rstrip_by. rewrite rev_involutive. apply lstrip_by_stops.
Qed.

(** X2. [normalize_path] only cuts: the path given is the normalized path
    with white space and quote characters before it and after it, nothing
    else; and the normalized path neither begins nor ends with a single
    quote. *)
Theorem normalize_path_cuts_ends (p : str) :
  (∃ pre post, p = pre ++ normalize_path p ++ post
     ∧ forallb trimmed_char pre = true ∧ forallb trimmed_char post = true)
  ∧ stops (N.eqb c_squote) (normalize_path p)
  ∧ stops (N.eqb c_squote) (rev (normalize_path p)).
Proof.
  split; [|apply strip_by_stops].
  unfold normalize_path, strip, strip_char.
  destruct (strip_by_cut isspace p) as (a1 & b1 & E1 & Ha1 & Hb1).
  destruct (strip_by_cut (N.eqb c_dquote) (strip_by isspace p))
    as (a2 & b2 & E2 & Ha2 & Hb2).
  destruct (strip_by_cut (N.eqb c_squote) (strip_by (N.eqb c_dquote) (strip_by isspace p)))
    as (a3 & b3 & E3 & Ha3 & Hb3).
  exists (a1 ++ a2 ++ a3), (b3 ++ b2 ++ b1). split; [|split].
  - rewrite E1 at 1. rewrite E2 at 1. rewrite E3 at 1. by rewrite <- !app_assoc.
  - rewrite !forallb_app.
    rewrite (forallb_weaken _ _ _ isspace_trimmed Ha1),
      (forallb_weaken _ _ _ dquote_trimmed Ha2), (forallb_weaken _ _ _ squote_trimmed Ha3).
    done.
  - rewrite !forallb_app.
    rewrite (forallb_weaken _ _ _ isspace_trimmed Hb1),
      (forallb_weaken _ _ _ dquote_trimmed Hb2), (forallb_weaken _ _ _ squote_trimmed Hb3).
    done.
Qed.

(** ** The output path and the input video *)

Lemma existsb_rev (f : char → bool) s : existsb f (rev s) = existsb f s.
Proof.
  induction s as [|c s IH]; cbn; [done|].
  rewrite existsb_app, IH. cbn. rewrite orb_false_r. apply orb_comm.
Qed.

Lemma splitext_of_parts d stem e :
  dir_prefix d → forallb not_slash stem = true → existsb not_dot stem = true →
  forallb not_slash e = true → forallb not_dot e = true →
  splitext (d ++ stem ++ c_dot :: e) = (d ++ stem, c_dot :: e).
Proof.
  intros Hd Hs1 Hs2 He1 He2.
  assert (Hname : forallb not_slash (stem ++ c_dot :: e) = true).
  { rewrite forallb_app, Hs1. cbn. by rewrite He1. }
  unfold splitext. rewrite basename_app, path_head_app by done.
  assert (Hrev : rev (stem ++ c_dot :: e) = rev e ++ c_dot :: rev stem).
  { rewrite rev_app_distr. cbn [rev]. by rewrite <- app_assoc. }
  rewrite Hrev.
  rewrite take_while_app, lstrip_by_app; [|by rewrite forallb_rev|done..|by rewrite forallb_rev|done].
  rewrite !rev_involutive, existsb_rev, Hs2. reflexivity.
Qed.

(** X3. Only the last extension of the file name is replaced: for a source
    path made of a directory prefix, a stem (which may itself hold dots) and
    an extension, [splitext] splits off exactly that extension and the
    transcript is named stem + ".txt". *)
Theorem transcript_name_keeps_stem (d stem e : str) :
  dir_prefix d → forallb not_slash stem = true → existsb not_dot stem = true →
  forallb not_slash e = true → forallb not_dot e = true →
  splitext (d ++ stem ++ c_dot :: e) = (d ++ stem, c_dot :: e)
  ∧ basename (txt_path_of (d ++ stem ++ c_dot :: e)) = stem ++ TXT_SUFFIX.
Proof.
  intros Hd Hs1 Hs2 He1 He2. split; [by apply splitext_of_parts|].
  rewrite (proj2 (txt_path_split _)). rewrite basename_app; [|done|].
  - pose proof (splitext_of_parts [] stem e I Hs1 Hs2 He1 He2) as Hsplit.
    cbn [app] in Hsplit. by rewrite Hsplit.
  - rewrite forallb_app, Hs1. cbn. by rewrite He1.
Qed.

Lemma transcript_name_keeps_stem_witness :
  basename (txt_path_of (utf8 "/videos/talk.final.v2.mov")) = utf8 "talk.final.v2.txt".
Proof.
  exact (proj2 (transcript_name_keeps_stem (utf8 "/videos/") (utf8 "talk.final.v2")
                  (utf8 "mov") eq_refl eq_refl eq_refl eq_refl eq_refl)).
Defined.

Lemma last_map (f : char → char) s : last (map f s) = f <$> last s.
Proof.
  induction s as [|c s IH]; [done|]. destruct s as [|c' s]; [done|]. exact IH.
Qed.

Lemma txt_path_last v : last (txt_path_of v) = Some 116.
Proof.
  apply path_split_last. rewrite (proj2 (txt_path_split v)).
  unfold TXT_SUFFIX. by rewrite last_app.
Qed.

(** The last character of a supported extension is not "t". *)
Lemma supported_ext_last e :
  str_in (lower e) SUPPORTED_EXTS = true → ∃ c, last e = Some c ∧ c ≠ 116.
Proof.
  intros Hin. apply str_in_elem in Hin.
  assert (Hl : ∃ k, last (lower e) = Some k ∧ k ≠ 116).
  { unfold SUPPORTED_EXTS in Hin.
    repeat (apply elem_of_cons in Hin as [->|Hin]; [eexists; split; [reflexivity|done]|]).
    by apply elem_of_nil in Hin. }
  destruct Hl as (k & Hk & Hne). unfold lower in Hk. rewrite last_map in Hk.
  destruct (last e) as [c|]; [|done]. exists c. split; [done|].
  intros ->. cbn in Hk. by injection Hk as <-.
Qed.

Lemma valid_txt_not_source fs p :
  valid_input fs p = true → txt_path_of (normalize_path p) ≠ normalize_path p.
Proof.
  intros (_ & _ & Hx)%valid_input_inv E.
  destruct (supported_ext_last _ Hx) as (c & Hc & Hne).
  pose proof (txt_path_last (normalize_path p)) as Hl. rewrite E in Hl.
  rewrite (source_path_parts (normalize_path p)) in Hl.
  rewrite !last_app, Hc in Hl. by injection Hl as ->.
Qed.

Lemma take_while_app_all f s1 s2 :
  forallb f s1 = true → take_while f (s1 ++ s2) = s1 ++ take_while f s2.
Proof.
  induction s1 as [|c s1 IH]; cbn; [done|].
  intros [Hc Hs]%andb_true_iff. by rewrite Hc, IH.
Qed.

Lemma basename_app_name x f :
  forallb not_slash f = true → basename (x ++ f) = basename x ++ f.
Proof.
  intros Hf. unfold basename.
  rewrite rev_app_distr, take_while_app_all by by rewrite forallb_rev.
  by rewrite rev_app_distr, rev_involutive.
Qed.

(** The extension of a name that ends in ".wav" is ".wav", or none. *)
Lemma wav_ext stem :
  snd (splitext (stem ++ WAV_SUFFIX)) = WAV_SUFFIX ∨ snd (splitext (stem ++ WAV_SUFFIX)) = [].
Proof.
  unfold splitext. rewrite basename_app_name by done.
  assert (Ht : rev (take_while not_dot (rev (basename stem ++ WAV_SUFFIX))) = [119; 97; 118]).
  { rewrite rev_app_distr. reflexivity. }
  rewrite Ht. repeat case_match; cbn [snd]; (by left) || (by right).
Qed.

Lemma valid_source_not_wav fs p stem :
  valid_input fs p = true → normalize_path p ≠ stem ++ WAV_SUFFIX.
Proof.
  intros (_ & _ & Hx)%valid_input_inv E. rewrite E in Hx.
  destruct (wav_ext stem) as [Hw|Hw]; rewrite Hw in Hx; discriminate Hx.
Qed.

(** X4. A successful run never writes over its input, nor deletes it: the
    output path and the name of the temporary file both differ from the
    normalized input path, and the file at the input path is, after the run,
    what the last collaborator called, the recognizer, left there. *)
Theorem input_video_untouched {H Model : Type} (lib : Collab Model)
    (p : str) (mn : option str) (cb : option (str -> H -> H))
    (w w' : World H) (out : str) :
  transcribe_video lib p mn cb w = (w', Ok out) →
  out ≠ normalize_path p
  ∧ audio_of lib w ≠ normalize_path p
  ∧ ∃ fs1 u fs2 model fs3 result,
      ffmpeg_run lib (normalize_path p) (audio_of lib w) FFMPEG_OPTS (fs_tmp lib w)
        = (fs1, Ok u)
      ∧ whisper_load_model lib (resolve_model mn (w_env w)) fs1 = (fs2, Ok model)
      ∧ model_transcribe lib model (audio_of lib w) TRANSCRIBE_OPTS fs2 = (fs3, Ok result)
      ∧ w_fs w' !! normalize_path p = fs3 !! normalize_path p.
Proof.
  intros Hrun. apply run_ok_inv in Hrun as (Hv & -> & fs1 & u & fs2 & model & fs3 & result
    & E1 & E2 & E3 & ->).
  pose proof (valid_txt_not_source _ _ Hv) as Hne.
  pose proof (valid_source_not_wav _ _ (tmp_stem lib (w_fs w)) Hv) as Hna.
  split; [done|]. split; [by intros E; apply Hna|].
  exists fs1, u, fs2, model, fs3, result. repeat split; try done.
  rewrite end_world_fs_other by done. by apply lookup_insert_ne.
Qed.

Lemma input_video_untouched_witness :
  let run := transcribe_video (lib_ok HELLO) VIDEO None (Some printer)
               (world_with [(VIDEO, utf8 "frames")] []) in
  w_fs (fst run) !! VIDEO = Some (utf8 "frames").
Proof.
  intros run.
  assert (Hout : snd run = Ok VIDEO_TXT) by (vm_compute; reflexivity).
  destruct (input_video_untouched (lib_ok HELLO) VIDEO None (Some printer) _ _ _
              (pair_of_snd run _ Hout))
    as (_ & _ & fs1 & u & fs2 & model & fs3 & result & E1 & E2 & E3 & Hf).
  etransitivity; [exact Hf|].
  injection E3 as <- _. injection E2 as <- _. injection E1 as <-.
  vm_compute. reflexivity.
Defined.

(** ** Runs of the orchestrator: what they do and what they never do *)

Lemma writes_app t1 t2 : writes (t1 ++ t2) = writes t1 ++ writes t2.
Proof. apply omap_app. Qed.

Lemma writes_removal fs a : writes (removal fs a) = [].
Proof. unfold removal. by destruct (is_file fs a). Qed.

Lemma removal_cases fs a : removal fs a = [] ∨ removal fs a = [EvRemove a].
Proof. unfold removal. destruct (is_file fs a); [by right|by left]. Qed.



(** X6. A transcript that UTF-8 cannot encode (it holds a surrogate) makes
    the run fail while writing: [open] has already created or emptied the
    output file, so the run raises the UnicodeEncodeError of the codec,
    leaves the output file empty (an older transcript is lost), removes the
    temporary file, and has emitted the first two status messages only. *)
Theorem unencodable_transcript_fails {H Model : Type} (lib : Collab Model)
    (p : str) (mn : option str) (cb : option (str -> H -> H)) (w : World H)
    (fs1 fs2 fs3 : gmap str str) (u : unit) (model : Model) (result : RecResult) :
  valid_input (w_fs w) p = true →
  ffmpeg_run lib (normalize_path p) (audio_of lib w) FFMPEG_OPTS (fs_tmp lib w)
    = (fs1, Ok u) →
  whisper_load_model lib (resolve_model mn (w_env w)) fs1 = (fs2, Ok model) →
  model_transcribe lib model (audio_of lib w) TRANSCRIBE_OPTS fs2 = (fs3, Ok result) →
  encodable (extract_text result) = false →
  let out := txt_path_of (normalize_path p) in
  let run := transcribe_video lib p mn cb w in
  snd run = Raise (encode_error (extract_text result))
  ∧ w_fs (fst run) !! out = Some []
  ∧ w_fs (fst run) !! audio_of lib w = None
  ∧ statuses (w_trace (fst run)) = statuses (w_trace w) ++ [MSG_EXTRACTING; MSG_RECOGNIZING]
  ∧ w_hook (fst run) = hook_of cb MSG_RECOGNIZING (hook_of cb MSG_EXTRACTING (w_hook w)).
Proof.
  intros Hv E1 E2 E3 Henc out run. subst run out.
  rewrite (run_write_fail lib _ _ _ _ Hv _ _ _ _ _ _ E1 E2 E3 Henc). cbn [fst snd].
  split; [done|]. split; [|split; [apply end_world_fs_audio|split; [|done]]].
  - rewrite end_world_fs_other by apply txt_path_not_wav. apply lookup_insert_eq.
  - unfold end_world; cbn [w_trace].
    by rewrite !statuses_app, statuses_removal, app_nil_r.
Qed.

Lemma unencodable_transcript_fails_witness :
  let run := transcribe_video (lib_ok UNPAIRED) VIDEO None (Some printer)
               (world_with [(VIDEO, []); (VIDEO_TXT, utf8 "an older transcript")] []) in
  exn_msg (encode_error (extract_text UNPAIRED))
    = utf8 "'utf-8' codec can't encode character '\ud800' in position 2: surrogates not allowed"
  ∧ snd run = Raise (encode_error (extract_text UNPAIRED))
  ∧ w_fs (fst run) !! VIDEO_TXT = Some [].
Proof.
  intros run. split; [vm_compute; reflexivity|].
  destruct (unencodable_transcript_fails (lib_ok UNPAIRED) VIDEO None (Some printer)
              (world_with [(VIDEO, []); (VIDEO_TXT, utf8 "an older transcript")] [])
              _ _ _ tt tt UNPAIRED ltac:(vm_compute; reflexivity) eq_refl eq_refl eq_refl
              ltac:(vm_compute; reflexivity))
    as (Hout & Hfile & _).
  split; [exact Hout|exact Hfile].
Defined.

(** X7. The calls of a successful run, in order: the temporary file is
    created; the first status; ffmpeg; the second status; the model is
    loaded; the audio is transcribed; the transcript is written; "Готово!";
    the saved-path status; last, the temporary file is removed if it is
    still there. The transcript is on disk before success is announced. *)
Theorem call_order_of_successful_run {H Model : Type} (lib : Collab Model)
    (p : str) (mn : option str) (cb : option (str -> H -> H))
    (w w' : World H) (out : str) :
  transcribe_video lib p mn cb w = (w', Ok out) →
  ∃ text last_call,
    w_trace w' =
      w_trace w
      ++ [EvTempFile (audio_of lib w);
          EvStatus MSG_EXTRACTING;
          EvExtract (normalize_path p) (audio_of lib w);
          EvStatus MSG_RECOGNIZING;
          EvLoadModel (resolve_model mn (w_env w));
          EvTranscribe (audio_of lib w);
          EvWrite out text;
          EvStatus MSG_DONE;
          EvStatus (MSG_SAVED ++ out)]
      ++ last_call
    ∧ (last_call = [] ∨ last_call = [EvRemove (audio_of lib w)]).
Proof.
  intros Hrun. apply run_ok_inv in Hrun as (_ & -> & fs1 & u & fs2 & model & fs3 & result
    & _ & _ & _ & ->).
  eexists _, _. split; [reflexivity|apply removal_cases].
Qed.

Lemma call_order_of_successful_run_witness :
  let run := transcribe_video (lib_ok HELLO) VIDEO None (Some printer)
               (world_with [(VIDEO, [])] []) in
  ∃ text last_call,
    w_trace (fst run) =
      [EvTempFile (TMP_STEM ++ WAV_SUFFIX); EvStatus MSG_EXTRACTING;
       EvExtract VIDEO (TMP_STEM ++ WAV_SUFFIX); EvStatus MSG_RECOGNIZING;
       EvLoadModel DEFAULT_MODEL; EvTranscribe (TMP_STEM ++ WAV_SUFFIX);
       EvWrite VIDEO_TXT text; EvStatus MSG_DONE; EvStatus (MSG_SAVED ++ VIDEO_TXT)]
      ++ last_call.
Proof.
  intros run.
  assert (Hout : snd run = Ok VIDEO_TXT) by (vm_compute; reflexivity).
  destruct (call_order_of_successful_run (lib_ok HELLO) VIDEO None (Some printer) _ _ _
              (pair_of_snd run _ Hout)) as (text & last_call & Ht & _).
  exists text, last_call. exact Ht.
Defined.

(** X8. On a disk of regular files, each reached by its one path, with a
    status hook that returns: if the collaborators write nowhere but at the
    temporary file, and that name is fresh, then a run that returns changes
    the disk in one place only, the output path, which holds the transcript;
    a run that raises leaves the disk exactly as it found it, unless it
    raised while writing a transcript that cannot be encoded, in which case
    the one change is that the output file is left empty. *)
Theorem disk_effect_of_run {H Model : Type} (lib : Collab Model)
    (p : str) (mn : option str) (cb : option (str -> H -> H))
    (w w' : World H) (r : res str) :
  writes_only_at lib (audio_of lib w) →
  w_fs w !! audio_of lib w = None →
  transcribe_video lib p mn cb w = (w', r) →
  match r with
  | Ok out => ∃ text, w_fs w' = <[out := text]> (w_fs w)
  | Raise e =>
      w_fs w' = w_fs w
      ∨ ∃ text, encodable text = false ∧ e = encode_error text
                ∧ w_fs w' = <[txt_path_of (normalize_path p) := []]> (w_fs w)
  end.
Proof.
  intros (Hf1 & Hf2 & Hf3) Hfresh Hrun. apply run_outcome in Hrun.
  assert (Htmp : ∀ q, q ≠ audio_of lib w → fs_tmp lib w !! q = w_fs w !! q).
  { intros q Hq. unfold fs_tmp. by rewrite lookup_insert_ne. }
  assert (Hend : ∀ fs' evs h, (∀ q, q ≠ audio_of lib w → fs' !! q = w_fs w !! q) →
            w_fs (end_world lib w fs' evs h) = w_fs w).
  { intros fs' evs h Hq. apply map_eq. intros q.
    destruct (decide (q = audio_of lib w)) as [->|Hne].
    - by rewrite end_world_fs_audio.
    - rewrite end_world_fs_other by done. by apply Hq. }
  assert (Hput : ∀ fs3 text evs h, (∀ q, q ≠ audio_of lib w → fs3 !! q = w_fs w !! q) →
            w_fs (end_world lib w (<[txt_path_of (normalize_path p) := text]> fs3) evs h)
            = <[txt_path_of (normalize_path p) := text]> (w_fs w)).
  { intros fs3 text evs h Hq. apply map_eq. intros q.
    pose proof (txt_path_not_wav (normalize_path p) (tmp_stem lib (w_fs w))) as Hne.
    destruct (decide (q = audio_of lib w)) as [->|Hqa].
    - rewrite end_world_fs_audio, lookup_insert_ne by done. by rewrite Hfresh.
    - rewrite end_world_fs_other by done.
      destruct (decide (q = txt_path_of (normalize_path p))) as [->|Hq'].
      + by rewrite !lookup_insert_eq.
      + rewrite !lookup_insert_ne by done. by apply Hq. }
  inversion Hrun; subst; try (by left).
  - left. apply Hend. intros q Hq. erewrite Hf1 by done. by apply Htmp.
  - left. apply Hend. intros q Hq. erewrite Hf2, Hf1 by done. by apply Htmp.
  - left. apply Hend. intros q Hq. erewrite Hf3, Hf2, Hf1 by done. by apply Htmp.
  - right. exists (extract_text result). split; [done|]. split; [done|].
    apply Hput. intros q Hq. erewrite Hf3, Hf2, Hf1 by done. by apply Htmp.
  - exists (extract_text result).
    apply Hput. intros q Hq. erewrite Hf3, Hf2, Hf1 by done. by apply Htmp.
Qed.

Lemma lib_ok_writes_only_at result a : writes_only_at (lib_ok result) a.
Proof.
  repeat split; cbn; intros; simplify_eq; try done. by rewrite lookup_insert_ne.
Qed.

Lemma disk_effect_of_run_witness :
  let w := world_with [(VIDEO, utf8 "frames")] [] in
  let run := transcribe_video (lib_ok HELLO) VIDEO None (Some printer) w in
  w_fs (fst run) = <[VIDEO_TXT := utf8 "hello world"]> (w_fs w).
Proof.
  intros w run.
  assert (Hout : snd run = Ok VIDEO_TXT) by (vm_compute; reflexivity).
  destruct (disk_effect_of_run (lib_ok HELLO) VIDEO None (Some printer) w (fst run)
              (Ok VIDEO_TXT) (lib_ok_writes_only_at _ _) ltac:(vm_compute; reflexivity)
              (pair_of_snd run _ Hout)) as (text & Hfs).
  rewrite Hfs. f_equal.
  assert (Hl : w_fs (fst run) !! VIDEO_TXT = Some (utf8 "hello world"))
    by (vm_compute; reflexivity).
  rewrite Hfs, lookup_insert_eq in Hl. by injection Hl.
Defined.

(** ** The model of the GUI and of the command line *)

(** The model argument reaches the run through [resolve_model] alone. *)
Lemma run_same_model {H Model : Type} (lib : Collab Model) (p : str)
    (mn1 mn2 : option str) (cb : option (str -> H -> H)) (w : World H) :
  resolve_model mn1 (w_env w) = resolve_model mn2 (w_env w) →
  transcribe_video lib p mn1 cb w = transcribe_video lib p mn2 cb w.
Proof.
  intros Hm.
  destruct (valid_input (w_fs w) p) eqn:Hv.
  - destruct (ffmpeg_run lib (normalize_path p) (audio_of lib w) FFMPEG_OPTS (fs_tmp lib w))
      as [fs1 [u|e]] eqn:E1.
    2:{ by rewrite !(run_extract_fail lib _ _ _ _ Hv _ _ E1). }
    destruct (whisper_load_model lib (resolve_model mn1 (w_env w)) fs1)
      as [fs2 [model|e]] eqn:E2; pose proof E2 as E2'; rewrite Hm in E2'.
    2:{ rewrite (run_load_fail lib _ mn1 _ _ Hv _ _ _ _ E1 E2),
          (run_load_fail lib _ mn2 _ _ Hv _ _ _ _ E1 E2').
        by rewrite Hm. }
    destruct (model_transcribe lib model (audio_of lib w) TRANSCRIBE_OPTS fs2)
      as [fs3 [result|e]] eqn:E3.
    2:{ rewrite (run_transcribe_fail lib _ mn1 _ _ Hv _ _ _ _ _ _ E1 E2 E3),
          (run_transcribe_fail lib _ mn2 _ _ Hv _ _ _ _ _ _ E1 E2' E3).
        by rewrite Hm. }
    destruct (encodable (extract_text result)) eqn:Henc.
    + rewrite (run_success lib _ mn1 _ _ Hv _ _ _ _ _ _ E1 E2 E3 Henc),
        (run_success lib _ mn2 _ _ Hv _ _ _ _ _ _ E1 E2' E3 Henc).
      by rewrite Hm.
    + rewrite (run_write_fail lib _ mn1 _ _ Hv _ _ _ _ _ _ E1 E2 E3 Henc),
        (run_write_fail lib _ mn2 _ _ Hv _ _ _ _ _ _ E1 E2' E3 Henc).
      by rewrite Hm.
  - apply valid_input_false in Hv as [->|[[Hp Hf]|(Hp & Hf & Hx)]].
    + by rewrite !run_empty.
    + by rewrite !run_missing.
    + by rewrite !run_unsupported.
Qed.

(** X10. The model field of the GUI, as [launch_gui] fills it from the
    environment, names the model that the command line uses. When a click
    on start, after a file was chosen in the fresh window, launches the
    worker, the model name it hands over resolves to the same identifier as
    no model argument at all, and the worker does what it would do around
    a run of [transcribe_video] without a model argument: the same calls,
    the same disk, the same tuples on the queue. The same holds of a worker
    started with the model field emptied. *)
Theorem gui_model_field_resolves_as_cli {Model : Type} (lib : Collab Model)
    (file_path video_path model_name : str) (w : World (list tuple)) :
  snd (start_transcription (choose_file file_path (initial_gui (w_env w))))
    = Launched video_path model_name →
  let run := transcribe_video lib video_path None (Some post_status) w in
  let ending :=
    match run with
    | (w', Ok path) => (set_hook (queue_put (K_DONE, path) (w_hook w')) w', Ok tt)
    | (w', Raise e) => (set_hook (queue_put (K_ERROR, exn_msg e) (w_hook w')) w', Ok tt)
    end in
  resolve_model (Some model_name) (w_env w) = resolve_model None (w_env w)
  ∧ worker lib video_path model_name w = ending
  ∧ worker lib video_path [] w = ending.
Proof.
  intros Hstart run ending.
  assert (Hname : model_name = default DEFAULT_MODEL (w_env w !! WHISPER_MODEL)).
  { unfold start_transcription in Hstart. case_match; [done|].
    cbn [snd] in Hstart. injection Hstart as _ <-.
    by destruct file_path. }
  assert (Hm : resolve_model (Some model_name) (w_env w) = resolve_model None (w_env w)).
  { subst model_name. cbn [resolve_model].
    destruct (w_env w !! WHISPER_MODEL) as [[|c m]|] eqn:E; cbn; by rewrite ?E. }
  split; [exact Hm|]. subst ending run. split.
  - by rewrite worker_run, (run_same_model lib _ _ None _ _ Hm).
  - by rewrite worker_run, (run_same_model lib _ (Some []) None).
Qed.

Lemma gui_model_field_resolves_as_cli_witness :
  let w : World (list tuple) :=
    mkWorld {[ VIDEO := [] ]} {[ WHISPER_MODEL := utf8 "small" ]} [] [] in
  resolve_model (Some (utf8 "small")) (w_env w) = resolve_model None (w_env w)
  ∧ w_fs (fst (worker lib_echo VIDEO (utf8 "small") w)) !! VIDEO_TXT = Some (utf8 "small")
  ∧ w_fs (fst (worker lib_echo VIDEO [] w)) !! VIDEO_TXT = Some (utf8 "small").
Proof.
  intros w.
  destruct (gui_model_field_resolves_as_cli lib_echo VIDEO VIDEO (utf8 "small") w
              ltac:(vm_compute; reflexivity)) as (Hm & Hw & Hw0).
  split; [exact Hm|]. rewrite Hw, Hw0. split; vm_compute; reflexivity.
Defined.

(** ** The command line *)

(** With the printer as hook, standard output receives the status messages
    of the run, in order. *)
Lemma run_prints_statuses {Model : Type} (lib : Collab Model) p mn
    (w w' : World (list str)) r :
  transcribe_video lib p mn (Some printer) w = (w', r) →
  ∃ msgs, w_hook w' = w_hook w ++ msgs
          ∧ statuses (w_trace w') = statuses (w_trace w) ++ msgs.
Proof.
  intros Hrun. apply run_outcome in Hrun.
  inversion Hrun; subst;
    try (exists []; by rewrite !app_nil_r);
    unfold end_world, hook4, hook2, hook1, hook_of, printer;
    cbn [w_hook w_trace default]; unfold id; cbv beta;
    rewrite !statuses_app, statuses_removal, app_nil_r.
  - exists [MSG_EXTRACTING]. done.
  - exists [MSG_EXTRACTING; MSG_RECOGNIZING]. by rewrite <- !app_assoc.
  - exists [MSG_EXTRACTING; MSG_RECOGNIZING]. by rewrite <- !app_assoc.
  - exists [MSG_EXTRACTING; MSG_RECOGNIZING]. by rewrite <- !app_assoc.
  - exists [MSG_EXTRACTING; MSG_RECOGNIZING; MSG_DONE;
            MSG_SAVED ++ txt_path_of (normalize_path p)].
    by rewrite <- !app_assoc.
Qed.

(** X11. What [run_cli] prints and how it ends: standard output receives
    the status messages of the run, in order, and then one last line, which
    is "Файл результата: " and the output path if the run returned, and the
    message of the exception if it raised; [run_cli] returns in the first
    case and exits with code 1 in the second. Disk and log are those of the
    run. *)
Theorem run_cli_output {Model : Type} (lib : Collab Model) (p : str)
    (w : World (list str)) :
  let run := transcribe_video lib p None (Some printer) w in
  ∃ msgs,
    statuses (w_trace (fst run)) = statuses (w_trace w) ++ msgs
    ∧ w_hook (fst (run_cli lib p w))
      = w_hook w ++ msgs
        ++ [match snd run with Ok out => MSG_RESULT ++ out | Raise e => exn_msg e end]
    ∧ snd (run_cli lib p w)
      = match snd run with Ok _ => Returned | Raise _ => SysExit 1 end
    ∧ w_fs (fst (run_cli lib p w)) = w_fs (fst run)
    ∧ w_trace (fst (run_cli lib p w)) = w_trace (fst run).
Proof.
  intros run.
  destruct (run_prints_statuses lib p None w (fst run) (snd run) (surjective_pairing run))
    as (msgs & Hhook & Hst).
  exists msgs. split; [exact Hst|].
  unfold run_cli, bind. fold run. rewrite (surjective_pairing run).
  destruct (snd run) as [out|e]; cbn [fst snd print_line set_hook w_hook w_fs w_trace];
    unfold printer; by rewrite Hhook, <- app_assoc.
Qed.

(** X12. [main] looks at the flag and at the first argument only: with
    --gui anywhere on the command line it does what it does with no
    argument at all, whatever else is given; without the flag, arguments
    after the first are ignored. *)
Theorem main_flag_and_first_argument {Model : Type} (lib : Collab Model)
    (raw_args : list str) (w : World (list str)) :
  (GUI_FLAG ∈ raw_args → main lib raw_args w = main lib [] w)
  ∧ (∀ arg0 rest, raw_args = arg0 :: rest → GUI_FLAG ∉ raw_args →
       main lib raw_args w = main lib [arg0] w).
Proof.
  split.
  - intros Hg. unfold main, main_body.
    assert (use_gui_of raw_args = true) as ->; [|done].
    unfold use_gui_of. apply str_in_elem in Hg. by rewrite Hg.
  - intros arg0 rest -> Hf. rewrite !main_headless; [done| |done].
    intros Hin. apply Hf. apply list_elem_of_singleton in Hin. subst arg0.
    apply list_elem_of_here.
Qed.

Lemma main_flag_and_first_argument_witness :
  let w := world_with [(VIDEO, [])] [] in
  main (lib_ok HELLO) [VIDEO; GUI_FLAG; NOTES] w = main (lib_ok HELLO) [] w
  ∧ main (lib_ok HELLO) [VIDEO; NOTES; CLIP] w = main (lib_ok HELLO) [VIDEO] w.
Proof.
  intros w. split.
  - apply (main_flag_and_first_argument (lib_ok HELLO) [VIDEO; GUI_FLAG; NOTES] w).
    apply list_elem_of_further, list_elem_of_here.
  - apply (proj2 (main_flag_and_first_argument (lib_ok HELLO) [VIDEO; NOTES; CLIP] w)
             VIDEO [NOTES; CLIP] eq_refl).
    intros Hin. repeat (apply elem_of_cons in Hin as [Hin|Hin]; [discriminate Hin|]).
    by apply elem_of_nil in Hin.
Defined.

(** ** The GUI: polling and the cycle of one run *)

Lemma drain_app q1 q2 ui : drain (q1 ++ q2) ui = drain q2 (drain q1 ui).
Proof. revert ui. induction q1 as [|t q1 IH]; intros ui; cbn; [done|apply IH]. Qed.

Lemma handle_status m ui : handle (K_STATUS, m) ui = set_status m ui.
Proof. reflexivity. Qed.

Lemma handle_done path ui :
  handle (K_DONE, path) ui =
    mkUi (UI_DONE_PREFIX ++ path) false true true
      (dialogs ui ++ [ShowInfo UI_DONE_TITLE (UI_SAVED ++ c_newline :: path)]) (timers ui).
Proof. reflexivity. Qed.

Lemma handle_error message ui :
  handle (K_ERROR, message) ui =
    mkUi UI_ERROR false true true
      (dialogs ui ++ [ShowError UI_ERROR_TITLE message]) (timers ui).
Proof. reflexivity. Qed.

Lemma drain_statuses (msgs : list str) (ui : Ui) :
  drain (map (pair K_STATUS) msgs) ui = set_status (default (status_var ui) (last msgs)) ui.
Proof.
  revert ui. induction msgs as [|m msgs IH]; intros ui.
  - by destruct ui.
  - cbn [map drain]. rewrite handle_status, IH.
    destruct msgs as [|m' msgs]; [done|].
    change (last (m :: m' :: msgs)) with (last (m' :: msgs)).
    destruct (last (m' :: msgs)) eqn:E; [done|].
    by apply last_None in E.
Qed.

(** X13. Status tuples change the status label and nothing else: after any
    number of them the label shows the last message, while the progress
    bar, the two buttons, the dialogs shown and the timers are as before
    (during a run the controls stay disabled). *)
Theorem status_tuples_only_set_label (msgs : list str) (ui : Ui) :
  let ui' := drain (map (pair K_STATUS) msgs) ui in
  status_var ui' = default (status_var ui) (last msgs)
  ∧ progress_running ui' = progress_running ui
  ∧ start_btn_normal ui' = start_btn_normal ui
  ∧ browse_btn_normal ui' = browse_btn_normal ui
  ∧ dialogs ui' = dialogs ui
  ∧ timers ui' = timers ui.
Proof. intros ui'. subst ui'. by rewrite drain_statuses. Qed.

Lemma sys_ui_follows ui0 s0 s :
  sys_steps s0 s → s_ui s0 = drain (s_seen s0) ui0 → s_ui s = drain (s_seen s) ui0.
Proof.
  induction 1 as [s|s1 s2 s3 _ IH Hstep]; [done|].
  intros H0. specialize (IH H0). destruct Hstep; cbn [s_ui s_seen] in *; [done|].
  by rewrite drain_app, <- IH.
Qed.

(** X14. However the worker's puts and the UI thread's gets interleave, the
    widgets are in the state that handling, in order, the tuples taken so
    far leads to; so once every put has been made and taken, the widgets
    are in the one state [drain puts ui], whatever the interleaving and
    however the tuples fell into polls. *)
Theorem ui_state_independent_of_interleaving (puts : list tuple) (ui : Ui) (s : Sys) :
  sys_steps (mkSys puts [] ui []) s →
  s_ui s = drain (s_seen s) ui
  ∧ (s_todo s = [] → s_queue s = [] → s_seen s = puts ∧ s_ui s = drain puts ui).
Proof.
  intros Hs. pose proof (sys_ui_follows ui _ _ Hs eq_refl) as Hui.
  split; [exact Hui|]. intros Ht Hq.
  apply sys_steps_fifo in Hs. rewrite Ht, Hq, !app_nil_r in Hs. cbn in Hs.
  split; [done|]. by rewrite Hui, Hs.
Qed.

Lemma ui_state_independent_of_interleaving_witness :
  let puts := [(K_STATUS, MSG_EXTRACTING); (K_ERROR, exn_msg MODEL_ERR)] in
  let ui := gui_ui (initial_gui ∅) in
  let s := mkSys [] [] (handle (K_ERROR, exn_msg MODEL_ERR) (handle (K_STATUS, MSG_EXTRACTING) ui))
             puts in
  s_ui s = drain puts ui.
Proof.
  intros puts ui s.
  refine (proj2 (proj2 (ui_state_independent_of_interleaving puts ui s _) eq_refl eq_refl)).
  eapply steps_snoc; [eapply steps_snoc; [eapply steps_snoc; [eapply steps_snoc;
    [apply steps_refl|]|]|]|].
  - apply step_put.
  - apply step_get.
  - apply step_put.
  - apply (step_get (K_ERROR, exn_msg MODEL_ERR) [] []).
Defined.

(** The puts of a run: its status tuples, then the terminal tuple. *)
Lemma worker_puts_shape {Model : Type} (lib : Collab Model) video model_name
    (w : World (list tuple)) :
  ∃ msgs,
    worker_puts lib video model_name w =
      map (pair K_STATUS) msgs
      ++ [match snd (transcribe_video lib video (Some model_name) (Some post_status) w) with
          | Ok path => (K_DONE, path)
          | Raise e => (K_ERROR, exn_msg e)
          end].
Proof.
  set (run := transcribe_video lib video (Some model_name) (Some post_status) w).
  destruct (run_posts_statuses lib video (Some model_name) w (fst run) (snd run)
              (surjective_pairing run)) as (msgs & Hhook & _).
  exists msgs. unfold worker_puts. rewrite worker_run. fold run.
  rewrite (surjective_pairing run).
  destruct (snd run); cbn [fst snd set_hook w_hook]; unfold queue_put;
    by rewrite Hhook, <- app_assoc, drop_app_length.
Qed.

(** X15. The cycle of one run in the GUI. A click on start with a path that
    is not blank launches one worker on the trimmed path and the model
    field, with both buttons disabled and the progress bar running. When
    the UI thread has handled all the tuples of that worker, the progress
    bar is stopped, both buttons are enabled again, exactly one dialog has
    been added (the confirmation with the output path if the run returned,
    the error box with the message if it raised) and the status label tells
    which. *)
Theorem gui_run_cycle {Model : Type} (lib : Collab Model) (g : Gui)
    (w : World (list tuple)) :
  strip (path_var g) ≠ [] →
  let video := strip (path_var g) in
  let started := fst (start_transcription g) in
  let run := transcribe_video lib video (Some (model_var g)) (Some post_status) w in
  let ui' := drain (worker_puts lib video (model_var g) w) (gui_ui started) in
  snd (start_transcription g) = Launched video (model_var g)
  ∧ (progress_running (gui_ui started) = true
     ∧ start_btn_normal (gui_ui started) = false
     ∧ browse_btn_normal (gui_ui started) = false)
  ∧ progress_running ui' = false
  ∧ start_btn_normal ui' = true
  ∧ browse_btn_normal ui' = true
  ∧ dialogs ui' = dialogs (gui_ui g) ++ [final_dialog (snd run)]
  ∧ status_var ui' = final_status (snd run).
Proof.
  intros Hp video started run ui'.
  assert (Hstart : start_transcription g =
            (mkGui (path_var g) (model_var g)
               (mkUi UI_STARTING true false false (dialogs (gui_ui g)) (timers (gui_ui g))),
             Launched video (model_var g))).
  { unfold start_transcription. by rewrite bool_decide_eq_false_2. }
  subst ui' started. rewrite Hstart. cbn [fst snd gui_ui].
  split; [done|]. split; [done|].
  destruct (worker_puts_shape lib video (model_var g) w) as (msgs & ->). fold run.
  rewrite drain_app, drain_statuses.
  destruct (snd run) as [path|e]; cbn [drain];
    rewrite ?handle_done, ?handle_error; done.
Qed.

Lemma gui_run_cycle_witness :
  let g := mkGui (utf8 " /videos/movie.mp4 ") (utf8 "base") (gui_ui (initial_gui ∅)) in
  let ui' := drain (worker_puts (lib_ok HELLO) VIDEO (utf8 "base") (world_with [(VIDEO, [])] []))
               (gui_ui (fst (start_transcription g))) in
  start_btn_normal ui' = true
  ∧ dialogs ui' = [ShowInfo UI_DONE_TITLE (UI_SAVED ++ c_newline :: VIDEO_TXT)].
Proof.
  intros g ui'.
  destruct (gui_run_cycle (lib_ok HELLO) g (world_with [(VIDEO, [])] [])
              ltac:(vm_compute; discriminate))
    as (_ & _ & _ & Hbtn & _ & Hdlg & _).
  split; [exact Hbtn|]. etransitivity; [exact Hdlg|]. vm_compute. reflexivity.
Defined.

(** ** The GUI: choosing a file and starting *)

Lemma strip_idem s : strip (strip s) = strip s.
Proof. unfold strip. apply strip_by_id; apply strip_by_stops. Qed.

Lemma normalize_path_strip s : normalize_path (strip s) = normalize_path s.
Proof. unfold normalize_path. by rewrite strip_idem. Qed.

(** A run depends on a non-empty path through its normalized form only. *)
Lemma run_depends_on_normalized {H Model : Type} (lib : Collab Model)
    (p1 p2 : str) mn cb (w : World H) :
  p1 ≠ [] → p2 ≠ [] → normalize_path p1 = normalize_path p2 →
  transcribe_video lib p1 mn cb w = transcribe_video lib p2 mn cb w.
Proof.
  intros H1 H2 Hn. unfold transcribe_video.
  rewrite !bool_decide_eq_false_2 by done. by rewrite Hn.
Qed.

Lemma strip_nonempty s : strip s ≠ [] → s ≠ [].
Proof. by intros Hs ->. Qed.

(** X16. From the file dialog to the worker. After [choose_file] has taken
    a selection that is not blank, a click on start launches the worker on
    the selection trimmed of white space, with the model field as it is;
    and [transcribe_video] on the trimmed selection does exactly what it
    does on the selection itself, so the GUI's own trimming changes nothing.
    A cancelled dialog (empty selection) leaves the GUI as it was. *)
Theorem chosen_file_is_transcribed {Model : Type} (lib : Collab Model)
    (selection : str) (g : Gui) :
  strip selection ≠ [] →
  path_var (choose_file selection g) = selection
  ∧ snd (start_transcription (choose_file selection g))
    = Launched (strip selection) (model_var g)
  ∧ (∀ (H : Type) mn cb (w : World H),
       transcribe_video lib (strip selection) mn cb w
       = transcribe_video lib selection mn cb w)
  ∧ choose_file [] g = g.
Proof.
  intros Hs. pose proof (strip_nonempty _ Hs) as Hne.
  destruct selection as [|c sel]; [done|]. cbn [choose_file path_var].
  split; [done|]. split; [|split; [|done]].
  - unfold start_transcription. cbn [path_var model_var].
    by rewrite bool_decide_eq_false_2.
  - intros H mn cb w. apply run_depends_on_normalized; [done..|].
    apply normalize_path_strip.
Qed.

Lemma chosen_file_is_transcribed_witness :
  snd (start_transcription (choose_file (utf8 "/videos/movie.mp4 ") (initial_gui ∅)))
  = Launched VIDEO (utf8 "base").
Proof.
  exact (proj1 (proj2 (chosen_file_is_transcribed (lib_ok HELLO) (utf8 "/videos/movie.mp4 ")
                         (initial_gui ∅) ltac:(vm_compute; discriminate)))).
Defined.

(** X17. A click on start launches a worker exactly when the path field is
    not blank. With a blank field, in particular one of white space only,
    nothing is launched and nothing changes (buttons, progress bar, status
    label, fields): the only effect is the warning box. *)
Theorem start_needs_a_path (g : Gui) :
  ((∃ video model, snd (start_transcription g) = Launched video model)
   ↔ strip (path_var g) ≠ [])
  ∧ (strip (path_var g) = [] → start_transcription g = (g, Warned UI_NO_FILE UI_CHOOSE))
  ∧ (forallb isspace (path_var g) = true →
     start_transcription g = (g, Warned UI_NO_FILE UI_CHOOSE)).
Proof.
  assert (Hblank : strip (path_var g) = [] →
            start_transcription g = (g, Warned UI_NO_FILE UI_CHOOSE)).
  { intros E. unfold start_transcription. by rewrite bool_decide_eq_true_2. }
  split; [|split; [exact Hblank|]].
  - split.
    + intros (video & model & Hl) E. rewrite (Hblank E) in Hl. discriminate Hl.
    + intros Hne. unfold start_transcription. rewrite bool_decide_eq_false_2 by done.
      eauto.
  - intros Hs. apply Hblank. unfold strip, strip_by. by rewrite lstrip_by_all.
Qed.

Lemma start_needs_a_path_witness :
  start_transcription (mkGui (utf8 "   ") (utf8 "base") (gui_ui (initial_gui ∅)))
  = (mkGui (utf8 "   ") (utf8 "base") (gui_ui (initial_gui ∅)), Warned UI_NO_FILE UI_CHOOSE).
Proof.
  exact (proj2 (proj2 (start_needs_a_path
           (mkGui (utf8 "   ") (utf8 "base") (gui_ui (initial_gui ∅))))) eq_refl).
Defined.

(** ** Edge cases of validation and of the model name *)

Lemma dots_no_slash (dots : str) : forallb (N.eqb c_dot) dots = true → forallb not_slash dots = true.
Proof.
  apply forallb_weaken. intros c Hc. apply N.eqb_eq in Hc. by subst c.
Qed.

Lemma dots_only (dots : str) : forallb (N.eqb c_dot) dots = true → existsb not_dot dots = false.
Proof.
  induction dots as [|c dots IH]; cbn [forallb existsb]; [done|].
  intros [Hc Hd]%andb_true_iff. apply N.eqb_eq in Hc. subst c. by rewrite IH.
Qed.

Lemma splitext_dot_file (d dots e : str) :
  dir_prefix d → forallb (N.eqb c_dot) dots = true →
  forallb not_slash e = true → forallb not_dot e = true →
  splitext (d ++ dots ++ c_dot :: e) = (d ++ dots ++ c_dot :: e, []).
Proof.
  intros Hd Hdots He1 He2.
  assert (Hname : forallb not_slash (dots ++ c_dot :: e) = true).
  { rewrite forallb_app, dots_no_slash by done. cbn [forallb]. by rewrite He1. }
  unfold splitext. rewrite basename_app by done.
  assert (Hrev : rev (dots ++ c_dot :: e) = rev e ++ c_dot :: rev dots).
  { rewrite rev_app_distr. cbn [rev]. by rewrite <- app_assoc. }
  rewrite Hrev, lstrip_by_app; [|by rewrite forallb_rev|done].
  rewrite rev_involutive, existsb_rev, dots_only by done. reflexivity.
Qed.

(** X18. A file whose name is only an extension, such as ".mp4" or
    "..mov" in any directory, has no extension for [transcribe_video]: if
    the normalized path is a directory prefix, then dots, then a last
    component without dot or slash, the input fails validation, whatever
    the disk holds. *)
Theorem dot_file_is_not_a_video (fs : gmap str str) (p d dots e : str) :
  dir_prefix d → forallb (N.eqb c_dot) dots = true →
  forallb not_slash e = true → forallb not_dot e = true →
  normalize_path p = d ++ dots ++ c_dot :: e →
  snd (splitext (normalize_path p)) = [] ∧ valid_input fs p = false.
Proof.
  intros Hd Hdots He1 He2 Hn.
  assert (Hx : snd (splitext (normalize_path p)) = []).
  { by rewrite Hn, splitext_dot_file. }
  split; [exact Hx|]. unfold valid_input. rewrite Hx. cbn. apply andb_false_r.
Qed.

Lemma dot_file_is_not_a_video_witness :
  valid_input (list_to_map [(utf8 "/videos/.mp4", [])]) (utf8 "/videos/.mp4") = false.
Proof.
  exact (proj2 (dot_file_is_not_a_video (list_to_map [(utf8 "/videos/.mp4", [])])
                  (utf8 "/videos/.mp4") (utf8 "/videos/") [] (utf8 "mp4")
                  eq_refl eq_refl eq_refl eq_refl ltac:(vm_compute; reflexivity))).
Defined.

(** X19. The model name handed to [whisper.load_model] is empty in one case
    only: no model argument is given (or an empty one) and WHISPER_MODEL is
    set to the empty string; the default "base" stands in for a variable
    that is unset, not for one that is empty. *)
Theorem empty_model_name_iff (mn : option str) (environ : gmap str str) :
  resolve_model mn environ = []
  ↔ (mn = None ∨ mn = Some []) ∧ environ !! WHISPER_MODEL = Some ([] : str).
Proof.
  unfold resolve_model. split.
  - intros Hx.
    assert (Hmn : mn = None ∨ mn = Some []) by (destruct mn as [[|c m]|]; auto; done).
    split; [exact Hmn|].
    assert (He : default DEFAULT_MODEL (environ !! WHISPER_MODEL) = [])
      by (by destruct Hmn as [-> | ->]).
    destruct (environ !! WHISPER_MODEL) as [e|]; [|done].
    cbn [from_option] in He. unfold id in He. by rewrite He.
  - intros [[-> | ->] He]; by rewrite He.
Qed.

Lemma empty_model_name_iff_witness :
  resolve_model (Some []) {[ WHISPER_MODEL := [] ]} = [].
Proof.
  apply (empty_model_name_iff (Some []) {[ WHISPER_MODEL := [] ]}).
  split; [by right|vm_compute; reflexivity].
Defined.
